(** * A shallow embedding of the flower decision tree (src/tree.cc)

    The development follows the source function by function.

    Conventions of the model:
    - [double] values (features, thresholds, gains) are exact rationals
      [Qc]; rounding, infinities and NaN are outside the model.
    - [int] values are integers [Z]; vector sizes are taken to fit in [int],
      so loop counters do not overflow.  The two places where the source
      mixes [int] and the unsigned [size_t] in a way that can be observed
      ([flowers_.size()-1] on an empty vector, and the comparisons of
      [max_depth]) have the conversion written out.
    - [std::log2] and [std::sort] are library functions: they are
      parameters of the model ([log2], [std_sort]); [std_sort] is only
      known to return a sorted permutation of its input.
    - every use of [std::random_device] is one element of a supply
      [rnd : nat -> rng] of freshly seeded generators.
    - undefined behaviour (an out-of-range vector access, a null child
      dereferenced, a zero divisor) is the result [Fault]. *)

From Stdlib Require Import QArith Qcanon QOrderedType Lqa.
From stdpp Require Import base numbers list sorting strings pretty.

Set Warnings "-register-all".

(** ** Results of fallible code *)

Inductive res (A : Type) : Type :=
  | Ok (a : A)
  | Fault
  | NoFuel.
Arguments Ok {A} a.
Arguments Fault {A}.
Arguments NoFuel {A}.

Global Instance res_bind : MBind res := λ A B k m,
  match m with
  | Ok a => k a
  | Fault => Fault
  | NoFuel => NoFuel
  end.

(** ** Machine integers *)

Definition to_size_t (z : Z) : Z := (z mod 2 ^ 64)%Z.
Definition to_int (z : Z) : Z := ((z + 2 ^ 31) mod 2 ^ 32 - 2 ^ 31)%Z.

Definition size {A} (v : list A) : Z := Z.of_nat (length v).

(** [v.size() - 1] in [size_t]: wraps around on an empty vector. *)
Definition size_minus_1 {A} (v : list A) : Z :=
  match v with
  | [] => (2 ^ 64 - 1)%Z
  | _ :: _ => (size v - 1)%Z
  end.

(** [v[i]]. *)
Definition vec_at {A} (v : list A) (i : Z) : res A :=
  if decide (0 ≤ i)%Z then
    match v !! Z.to_nat i with
    | Some x => Ok x
    | None => Fault
    end
  else Fault.

(** [*p] for a [unique_ptr]. *)
Definition deref {A} (p : option A) : res A :=
  match p with
  | Some x => Ok x
  | None => Fault
  end.

(** [(double)a / b] with integer operands. *)
Definition fdiv (a b : Z) : res Qc :=
  if decide (b = 0%Z) then Fault else Ok (Qc_of_Z a / Qc_of_Z b)%Qc.

Definition to_string (z : Z) : string := pretty z.

(** ** Flowers *)

Inductive Feature := SL | SW | PL | PW.

Global Instance Feature_eq_dec : EqDecision Feature.
Proof. solve_decision. Defined.

(** [enum Class { setosa, versicolor, virginica }]; a [Flower] stores
    whatever integer was cast to it. *)
Definition setosa : Z := 0.
Definition versicolor : Z := 1.
Definition virginica : Z := 2.

Record Flower := mkFlower {
  sl_ : Qc;
  sw_ : Qc;
  pl_ : Qc;
  pw_ : Qc;
  class_ : Z
}.

Global Instance Flower_eq_dec : EqDecision Flower.
Proof. solve_decision. Defined.

Definition feature (fl : Flower) (f : Feature) : Qc :=
  match f with
  | SL => sl_ fl
  | SW => sw_ fl
  | PL => pl_ fl
  | PW => pw_ fl
  end.

Definition get_class (fl : Flower) : Z := class_ fl.

(** [Flower::read_from], after the five fields of the line have been
    extracted: the class code is cast to [Class] unchecked. *)
Definition read_from (sl sw pl pw : Qc) (c : Z) : Flower :=
  mkFlower sl sw pl pw c.

(** ** Nodes *)

Inductive Node := mkNode {
  feature_ : string;
  threshold_ : Qc;
  position_ : string;
  flowers_ : list Flower;
  left_ : option Node;
  right_ : option Node
}.

(** The constructor [Node(new_flowers, name)]; the threshold is not
    initialised by the source and is never read before it is set. *)
Definition new_Node (new_flowers : list Flower) (name : string) : Node :=
  mkNode "" 0%Qc name new_flowers None None.

Definition set_feature (s : string) (n : Node) : Node :=
  mkNode s (threshold_ n) (position_ n) (flowers_ n) (left_ n) (right_ n).
Definition set_threshold (t : Qc) (n : Node) : Node :=
  mkNode (feature_ n) t (position_ n) (flowers_ n) (left_ n) (right_ n).
Definition set_flowers (v : list Flower) (n : Node) : Node :=
  mkNode (feature_ n) (threshold_ n) (position_ n) v (left_ n) (right_ n).
Definition set_children (l r : option Node) (n : Node) : Node :=
  mkNode (feature_ n) (threshold_ n) (position_ n) (flowers_ n) l r.

Definition set_max_depth (depth : Z) (n : Node) : Z :=
  to_int (to_size_t depth + Z.of_nat (String.length (position_ n))).

(** [Node::count_class]: a class outside the three enumerators matches no
    case of the switch. *)
Definition count_step (acc : Z * Z * Z) (fl : Flower) : Z * Z * Z :=
  let '(a, b, c) := acc in
  if decide (get_class fl = setosa) then (a + 1, b, c)%Z
  else if decide (get_class fl = versicolor) then (a, b + 1, c)%Z
  else if decide (get_class fl = virginica) then (a, b, c + 1)%Z
  else (a, b, c).

Definition count_flowers (v : list Flower) : Z * Z * Z :=
  foldl count_step (0, 0, 0)%Z v.

Definition count_class (n : Node) : Z * Z * Z := count_flowers (flowers_ n).

(** [Node::split_node]. *)
Definition split_node (index : Z) (n : Node) : res Node :=
  if decide (0 ≤ index ≤ size (flowers_ n))%Z then
    let lflowers := take (Z.to_nat index) (flowers_ n) in
    let rflowers := drop (Z.to_nat index) (flowers_ n) in
    Ok (set_children (Some (new_Node lflowers (position_ n +:+ "L")))
                     (Some (new_Node rflowers (position_ n +:+ "R"))) n)
  else Fault.

(** [Node::find_best]; [g] is the freshly seeded generator, [d2 g] and
    [d1 g] what the two distributions return on it. *)
Record rng := mkRng { d2 : Z; d1 : Z }.

Definition rng_ok (g : rng) : Prop := (0 ≤ d2 g ≤ 2 ∧ 0 ≤ d1 g ≤ 1)%Z.

Definition find_best (a b c : Z) (g : rng) : Z :=
  if decide (a = b ∧ b = c) then d2 g
  else if decide (a = b ∧ b > c)%Z then d1 g
  else if decide (b = c ∧ c > a)%Z then (1 + d1 g)%Z
  else if decide (c = a ∧ a > b)%Z then (2 * d1 g)%Z
  else if decide (a = b) then 2%Z
  else if decide (b = c) then 0%Z
  else if decide (c = a) then 1%Z
  else (Z.b2z (bool_decide (b > a ∧ b > c)%Z)
        + 2 * Z.b2z (bool_decide (c > a ∧ c > b)%Z))%Z.

(** [Node::make_leaf]. *)
Definition make_leaf (g : rng) (n : Node) : Node :=
  let '(a, b, c) := count_class n in
  mkNode (to_string (find_best a b c g)) 0%Qc (position_ n) (flowers_ n) None None.

Definition feature_name (f : Feature) : string :=
  match f with
  | SL => "SL"
  | SW => "SW"
  | PL => "PL"
  | PW => "PW"
  end.

(** [Node::validate_flower]. *)
Fixpoint validate_flower (n : Node) (f : Flower) : res bool :=
  match n with
  | mkNode feat thr _ _ l r =>
    let descend (ft : Feature) :=
      if decide (feature f ft < thr)%Qc
      then match l with Some l => validate_flower l f | None => Fault end
      else match r with Some r => validate_flower r f | None => Fault end in
    if decide (feat = "SL") then descend SL
    else if decide (feat = "SW") then descend SW
    else if decide (feat = "PL") then descend PL
    else if decide (feat = "PW") then descend PW
    else Ok (bool_decide (to_string (get_class f) = feat))
  end.

(** The counting loops of [main]. *)
Definition count_correct (tree : Node) (v : list Flower) : res Z :=
  foldl (λ acc f,
           correct ← acc;
           ok ← validate_flower tree f;
           Ok (if ok : bool then correct + 1 else correct)%Z)
        (Ok 0%Z) v.

(** ** Vocabulary of the specification *)

Definition valid_class (c : Z) : Prop :=
  c = setosa ∨ c = versicolor ∨ c = virginica.

Global Instance valid_class_dec c : Decision (valid_class c).
Proof. unfold valid_class. apply _. Defined.

(** The count of class [cls] in a triple of counts. *)
Definition class_count (a b c cls : Z) : Z :=
  if decide (cls = setosa) then a
  else if decide (cls = versicolor) then b
  else c.

(** The number of flowers of class [c] in a vector. *)
Definition class_size (c : Z) (v : list Flower) : Z :=
  size (filter (λ fl, get_class fl = c) v).

(** The classes whose count is the greatest, in increasing order. *)
Definition top_classes (a b c : Z) : list Z :=
  filter (λ cls, class_count a b c cls = (a `max` b) `max` c)%Z
         [setosa; versicolor; virginica].

(** The counts at which [find_best] is said to draw among two classes, and
    those at which it is said not to draw. *)
Definition two_on_top (a b c : Z) : Prop :=
  (a = b ∧ c < a)%Z ∨ (b = c ∧ a < b)%Z ∨ (c = a ∧ b < c)%Z.

Definition one_on_top (a b c : Z) : Prop :=
  (a = b ∧ a < c)%Z ∨ (b = c ∧ b < a)%Z ∨ (c = a ∧ c < b)%Z
  ∨ (a ≠ b ∧ b ≠ c ∧ c ≠ a).

(** The value of feature [f] changes between positions [i-1] and [i]. *)
Definition value_changes (f : Feature) (v : list Flower) (i : Z) : Prop :=
  ∃ x y, v !! Z.to_nat (i - 1) = Some x ∧ v !! Z.to_nat i = Some y
    ∧ feature x f ≠ feature y f.

Global Instance value_changes_dec f v i : Decision (value_changes f v i).
Proof.
  unfold value_changes.
  destruct (v !! Z.to_nat (i - 1)) as [x|] eqn:Hx;
    [|right; by intros (? & ? & ? & _)].
  destruct (v !! Z.to_nat i) as [y|] eqn:Hy;
    [|right; by intros (? & ? & _ & ? & _)].
  destruct (decide (feature x f ≠ feature y f)) as [Hne|Heq].
  - left. by exists x, y.
  - right. intros (x' & y' & [= <-] & [= <-] & Hne). by apply Heq.
Defined.

(** The candidates of the split search as the specification words them:
    every index [0 < i < n] at which the sorted value changes. *)
Definition spec_candidates (f : Feature) (v : list Flower) : list Z :=
  filter (value_changes f v) (Z.of_nat <$> seq 1 (length v - 1)).

Definition sorted_by (f : Feature) (v : list Flower) : Prop :=
  Sorted (λ x y, feature x f ≤ feature y f)%Qc v.

Definition is_leaf (n : Node) : Prop := left_ n = None ∧ right_ n = None.

(** All nodes of a tree, the root first, the left subtree before the
    right one. *)
Fixpoint subnodes (n : Node) : list Node :=
  match n with
  | mkNode _ _ _ _ l r =>
    n :: match l with Some l => subnodes l | None => [] end
      ++ match r with Some r => subnodes r | None => [] end
  end.

(** The nodes without a child, from left to right. *)
Fixpoint leaves (n : Node) : list Node :=
  match n with
  | mkNode _ _ _ _ None None => [n]
  | mkNode _ _ _ _ l r =>
    match l with Some l => leaves l | None => [] end
    ++ match r with Some r => leaves r | None => [] end
  end.

(** The feature an internal node is labelled with. *)
Definition chosen_feature (s : string) : option Feature :=
  if decide (s = "SL") then Some SL
  else if decide (s = "SW") then Some SW
  else if decide (s = "PL") then Some PL
  else if decide (s = "PW") then Some PW
  else None.

(** The node a sample is routed to: left below the threshold, right
    otherwise, until a node without two children or without a feature. *)
Fixpoint classify_leaf (n : Node) (fl : Flower) : Node :=
  match n with
  | mkNode feat thr _ _ (Some l) (Some r) =>
    match chosen_feature feat with
    | Some ft =>
      if decide (feature fl ft < thr)%Qc then classify_leaf l fl
      else classify_leaf r fl
    | None => n
    end
  | _ => n
  end.



(** The leaf a sample is routed to carries the class of the sample. *)
Definition classified_right (t : Node) (fl : Flower) : Prop :=
  feature_ (classify_leaf t fl) = to_string (get_class fl).

Global Instance classified_right_dec t fl : Decision (classified_right t fl).
Proof. unfold classified_right. apply _. Defined.

Definition same_class (v : list Flower) : Prop :=
  ∀ x y, x ∈ v → y ∈ v → get_class x = get_class y.

Definition depth_reached (max_depth : Z) (n : Node) : Prop :=
  to_size_t max_depth = Z.of_nat (String.length (position_ n)).

(** The declared order of the features. *)
Definition feature_rank (f : Feature) : nat :=
  match f with
  | SL => 0
  | SW => 1
  | PL => 2
  | PW => 3
  end.

(** [f] is the first feature, in declared order, at which [g] is greatest. *)
Definition first_best (g : Feature → Qc) (f : Feature) : Prop :=
  (∀ f', g f' ≤ g f)%Qc ∧
  (∀ f', feature_rank f' < feature_rank f → (g f' < g f)%Qc).

(** ** Instances of the library functions, used to run the model *)

Fixpoint insert_by (f : Feature) (x : Flower) (v : list Flower) : list Flower :=
  match v with
  | [] => [x]
  | y :: v' =>
    if decide (feature x f < feature y f)%Qc then x :: y :: v'
    else y :: insert_by f x v'
  end.

Definition insertion_sort (f : Feature) (v : list Flower) : list Flower :=
  foldr (insert_by f) [] v.

(** A table of base-2 logarithms at the proportions of the examples,
    rounded to three decimals. *)
Definition log2_tab (x : Qc) : Qc :=
  if decide (x = Q2Qc 1) then Q2Qc 0
  else if decide (x = Q2Qc (1 # 2)) then Q2Qc (-1)
  else if decide (x = Q2Qc (1 # 3)) then Q2Qc (-1585 # 1000)
  else if decide (x = Q2Qc (2 # 3)) then Q2Qc (-585 # 1000)
  else if decide (x = Q2Qc (1 # 4)) then Q2Qc (-2)
  else if decide (x = Q2Qc (3 # 4)) then Q2Qc (-415 # 1000)
  else (x - Q2Qc 1)%Qc.

Definition flower (sl sw pl pw : Z) (c : Z) : Flower :=
  read_from (Qc_of_Z sl) (Qc_of_Z sw) (Qc_of_Z pl) (Qc_of_Z pw) c.

Definition fair : nat → rng := λ _, mkRng 0 0.

(** Three flowers of sepal lengths 1, 2, 3 and classes 0, 0, 1: the only
    split that separates the classes is at index 2. *)
Definition skipped_example : list Flower :=
  [flower 1 0 0 0 0; flower 2 0 0 0 0; flower 3 0 0 0 1].

(** ** The part of the model that depends on the library functions *)

Section Tree.

Variable log2 : Qc → Qc.
Variable std_sort : Feature → list Flower → list Flower.

(** What [std::sort] guarantees for the comparator of
    [Node::sort_flowers_by]: the result is a permutation of the input in
    which no element is smaller than an earlier one. *)
Hypothesis std_sort_perm : ∀ f v, std_sort f v ≡ₚ v.
Hypothesis std_sort_sorted : ∀ f v, sorted_by f (std_sort f v).

Definition linlog (x : Qc) : Qc :=
  if decide (x = 0%Qc) then 0%Qc else (x * log2 x)%Qc.

Definition I (x y z : Qc) : Qc := (0 - linlog x - linlog y - linlog z)%Qc.

Definition sort_flowers_by (f : Feature) (n : Node) : Node :=
  set_flowers (std_sort f (flowers_ n)) n.

(** [I((double)a/total, (double)b/total, (double)c/total)]. *)
Definition I_over (a b c total : Z) : res Qc :=
  x ← fdiv a total; y ← fdiv b total; z ← fdiv c total; Ok (I x y z).

(** [Node::gain]. *)
Definition gain (n : Node) : res Qc :=
  let '(a, b, c) := count_class n in
  l ← deref (left_ n);
  let '(a1, b1, c1) := count_class l in
  r ← deref (right_ n);
  let '(a2, b2, c2) := count_class r in
  let total := (a + b + c)%Z in
  let total1 := (a1 + b1 + c1)%Z in
  let total2 := (a2 + b2 + c2)%Z in
  if decide (total1 = 0%Z ∨ total2 = 0%Z) then Ok 0%Qc
  else
    i ← I_over a b c total;
    w1 ← fdiv total1 total;
    i1 ← I_over a1 b1 c1 total1;
    w2 ← fdiv total2 total;
    i2 ← I_over a2 b2 c2 total2;
    Ok (i - w1 * i1 - w2 * i2)%Qc.

(** The inner [for] of [Node::max_gain]: advance [split_point] to the next
    index at which the feature value changes, or to the size. *)
Fixpoint skip_equal (fuel : nat) (f : Feature) (v : list Flower)
    (split_point : Z) : res Z :=
  if decide (split_point < size v)%Z then
    match fuel with
    | 0 => NoFuel
    | S fuel =>
      x ← vec_at v (split_point - 1);
      y ← vec_at v split_point;
      if decide (feature x f ≠ feature y f) then Ok split_point
      else skip_equal fuel f v (split_point + 1)
    end
  else Ok split_point.

(** The outer [for] of [Node::max_gain]; the source's
    [candidate > cur_max] is written [cur_max < candidate]. *)
Fixpoint max_gain_loop (fuel : nat) (f : Feature) (n : Node)
    (split_point : Z) (cur_max : Qc) (index : Z) : res (Node * Qc * Z) :=
  if decide (split_point < size (flowers_ n))%Z then
    match fuel with
    | 0 => NoFuel
    | S fuel =>
      split_point ← skip_equal (length (flowers_ n)) f (flowers_ n) split_point;
      n ← split_node split_point n;
      candidate ← gain n;
      let '(cur_max, index) :=
        if decide (cur_max < candidate)%Qc then (candidate, split_point)
        else (cur_max, index) in
      max_gain_loop fuel f n (split_point + 1 + 1) cur_max index
    end
  else Ok (n, cur_max, index).

(** [Node::max_gain]: the gain found and the node as it is left. *)
Definition max_gain (f : Feature) (n : Node) : res (Qc * Node) :=
  let n := sort_flowers_by f n in
  '(n, cur_max, index) ← max_gain_loop (length (flowers_ n)) f n 1 0%Qc 1;
  n ← split_node index n;
  x ← vec_at (flowers_ n) (index - 1);
  y ← vec_at (flowers_ n) index;
  Ok (cur_max,
      set_feature (feature_name f)
        (set_threshold ((feature x f + feature y f) / 2)%Qc n)).

(** The first [for] of [Node::build_tree]: [true] when the node is to
    become a leaf at once, [false] when the loop is left. *)
Fixpoint purity_loop (fuel : nat) (max_depth : Z) (n : Node) (i : Z)
    : res bool :=
  if decide (i ≤ size_minus_1 (flowers_ n))%Z then
    match fuel with
    | 0 => NoFuel
    | S fuel =>
      if decide (i = size_minus_1 (flowers_ n)
                 ∨ to_size_t max_depth = Z.of_nat (String.length (position_ n)))
      then Ok true
      else
        x ← vec_at (flowers_ n) i;
        y ← vec_at (flowers_ n) (i + 1);
        if decide (get_class x ≠ get_class y) then Ok false
        else purity_loop fuel max_depth n (i + 1)
    end
  else Ok false.

(** [Node::build_tree]; [k] counts the generators used so far.  The
    source's [x >= y] is written [y ≤ x]. *)
Fixpoint build_tree (fuel : nat) (max_depth : Z) (rnd : nat → rng)
    (n : Node) (k : nat) : res (Node * nat) :=
  match fuel with
  | 0 => NoFuel
  | S fuel =>
    leaf ← purity_loop (S (length (flowers_ n))) max_depth n 0;
    if leaf : bool then Ok (make_leaf (rnd k) n, S k)
    else
      '(gainSL, n) ← max_gain SL n;
      '(gainSW, n) ← max_gain SW n;
      '(gainPL, n) ← max_gain PL n;
      '(gainPW, n) ← max_gain PW n;
      if decide (gainSL = 0 ∧ gainSW = 0 ∧ gainPL = 0 ∧ gainPW = 0)%Qc
      then Ok (make_leaf (rnd k) n, S k)
      else
        '(_, n) ←
          (if decide (gainSW ≤ gainSL ∧ gainPL ≤ gainSL ∧ gainPW ≤ gainSL)%Qc
           then max_gain SL n
           else if decide (gainSL ≤ gainSW ∧ gainPL ≤ gainSW ∧ gainPW ≤ gainSW)%Qc
           then max_gain SW n
           else if decide (gainSL ≤ gainPL ∧ gainSW ≤ gainPL ∧ gainPW ≤ gainPL)%Qc
           then max_gain PL n
           else max_gain PW n);
        l ← deref (left_ n);
        '(l, k) ← build_tree fuel max_depth rnd l k;
        r ← deref (right_ n);
        '(r, k) ← build_tree fuel max_depth rnd r k;
        Ok (set_children (Some l) (Some r) n, k)
  end.

(** [main], from the parsed input to the four numbers it reports:
    correct and total on the training set, correct and total on the
    validation set. *)
Definition main (input : list Flower) (vset_begin vset_end depth : Z)
    (name : string) (rnd : nat → rng) : res (Z * Z * Z * Z) :=
  if decide (0 ≤ vset_begin ∧ vset_begin ≤ vset_end ∧ vset_end ≤ size input)%Z then
    let vflowers :=
      take (Z.to_nat (vset_end - vset_begin)) (drop (Z.to_nat vset_begin) input) in
    let tflowers :=
      take (Z.to_nat vset_begin) input ++ drop (Z.to_nat vset_end) input in
    let ttree := new_Node tflowers name in
    let max_depth := set_max_depth depth ttree in
    '(ttree, _) ← build_tree (S (length tflowers)) max_depth rnd ttree 0;
    correctt ← count_correct ttree tflowers;
    correctv ← count_correct ttree vflowers;
    Ok (correctt, size tflowers, correctv, size vflowers)
  else Fault.

(** ** Vocabulary of the specification, continued *)

(** The gain [max_gain] reports for a feature on a partition. *)
Definition best_gain (f : Feature) (v : list Flower) : Qc :=
  match max_gain f (new_Node v "") with
  | Ok (g, _) => g
  | _ => 0%Qc
  end.

Definition no_gain (v : list Flower) : Prop := ∀ f, best_gain f v = 0%Qc.

Definition leaf_condition (max_depth : Z) (n : Node) : Prop :=
  same_class (flowers_ n) ∨ depth_reached max_depth n ∨ no_gain (flowers_ n).

(** The gain of the split of [v] at [index], as [Node::gain] computes it
    on a node split there. *)
Definition gain_at (v : list Flower) (index : Z) : res Qc :=
  n ← split_node index (new_Node v ""); gain n.


(** The split search as the specification words it: the greatest gain
    over all candidates, the first one seen winning ties ([0] when no
    candidate has a positive gain). *)
Definition spec_max_gain (f : Feature) (n : Node) : res Qc :=
  let v := std_sort f (flowers_ n) in
  foldl (λ acc i,
           cur_max ← acc;
           candidate ← gain_at v i;
           Ok (if decide (cur_max < candidate)%Qc then candidate else cur_max))
        (Ok 0%Qc) (spec_candidates f v).

(** The runs of [Node::build_tree] that return, as a relation: from a node
    and a generator count to the finished node and the count after. *)
Inductive Built (max_depth : Z) (rnd : nat → rng)
    : Node → nat → Node → nat → Prop :=
  | Built_leaf n k n' :
      flowers_ n ≠ [] →
      leaf_condition max_depth n →
      flowers_ n' ≡ₚ flowers_ n →
      position_ n' = position_ n →
      Built max_depth rnd n k (make_leaf (rnd k) n') (S k)
  | Built_split n k f n' g m l r tl k1 tr k2 :
      ¬ leaf_condition max_depth n →
      2 ≤ length (flowers_ n) →
      first_best (λ f, best_gain f (flowers_ n)) f →
      flowers_ n' ≡ₚ flowers_ n →
      position_ n' = position_ n →
      max_gain f n' = Ok (g, m) →
      g = best_gain f (flowers_ n) →
      (0 < g)%Qc →
      left_ m = Some l →
      right_ m = Some r →
      Built max_depth rnd l k tl k1 →
      Built max_depth rnd r k1 tr k2 →
      Built max_depth rnd n k (set_children (Some tl) (Some tr) m) k2.

(** * Verification *)

Ltac qc_order := unfold Qcle, Qclt in *; q_order.

(** ** Results and vectors *)

Lemma bind_Ok {A B} (m : res A) (k : A → res B) (b : B) :
  m ≫= k = Ok b ↔ ∃ a, m = Ok a ∧ k a = Ok b.
Proof.
  destruct m; simpl; split; [eauto| |done| |done|].
  - by intros (? & [= ->] & ?).
  - by intros (? & ? & ?).
  - by intros (? & ? & ?).
Qed.

Lemma bind_Ok_l {A B} (a : A) (k : A → res B) : Ok a ≫= k = k a.
Proof. reflexivity. Qed.

Lemma size_nil {A} : size (@nil A) = 0%Z.
Proof. done. Qed.

Lemma size_nonneg {A} (v : list A) : (0 ≤ size v)%Z.
Proof. unfold size. lia. Qed.

Lemma vec_at_Ok {A} (v : list A) (i : Z) (x : A) :
  vec_at v i = Ok x ↔ (0 ≤ i)%Z ∧ v !! Z.to_nat i = Some x.
Proof.
  unfold vec_at. destruct (decide _); [|by split; [|intros []]].
  destruct (v !! _); split; try done.
  - by intros [= ->].
  - by intros [_ [= ->]].
  - by intros [_ ?].
Qed.

Lemma vec_at_in_range {A} (v : list A) (i : Z) :
  (0 ≤ i < size v)%Z → ∃ x, vec_at v i = Ok x ∧ v !! Z.to_nat i = Some x.
Proof.
  intros Hi. unfold vec_at, size in *. rewrite decide_True by lia.
  destruct (lookup_lt_is_Some_2 v (Z.to_nat i)) as [x Hx]; [lia|].
  rewrite Hx. eauto.
Qed.

Lemma vec_at_out_of_range {A} (v : list A) (i : Z) :
  (i < 0 ∨ size v ≤ i)%Z → vec_at v i = Fault.
Proof.
  intros Hi. unfold vec_at, size in *. destruct (decide _); [|done].
  rewrite lookup_ge_None_2; [done|lia].
Qed.

Lemma to_string_inj (x y : Z) : to_string x = to_string y → x = y.
Proof. apply pretty_Z_inj. Qed.

(** ** Counting classes *)

Lemma foldl_count_step (v : list Flower) (a b c : Z) :
  foldl count_step (a, b, c) v =
  (a + class_size setosa v, b + class_size versicolor v,
   c + class_size virginica v)%Z.
Proof.
  revert a b c. induction v as [|fl v IH]; intros a b c; simpl.
  { unfold class_size, size. simpl. repeat (apply (f_equal2 pair)); lia. }
  unfold class_size, size in *. rewrite !filter_cons.
  unfold setosa, versicolor, virginica in *.
  repeat case_decide; try congruence; rewrite IH; simpl;
    repeat (apply (f_equal2 pair)); lia.
Qed.

Lemma count_flowers_eq (v : list Flower) :
  count_flowers v =
  (class_size setosa v, class_size versicolor v, class_size virginica v).
Proof. unfold count_flowers. by rewrite foldl_count_step. Qed.

Lemma class_size_sum (v : list Flower) :
  (class_size setosa v + class_size versicolor v + class_size virginica v
   = size (filter (λ fl, valid_class (get_class fl)) v))%Z.
Proof.
  unfold class_size, size, valid_class, setosa, versicolor, virginica.
  induction v as [|fl v IH]; [done|].
  rewrite !filter_cons.
  repeat case_decide; simpl; try lia; naive_solver.
Qed.

Lemma class_size_nonneg (c : Z) (v : list Flower) : (0 ≤ class_size c v)%Z.
Proof. apply size_nonneg. Qed.

Lemma class_size_app (c : Z) (v1 v2 : list Flower) :
  class_size c (v1 ++ v2) = (class_size c v1 + class_size c v2)%Z.
Proof. unfold class_size, size. rewrite filter_app, length_app. lia. Qed.

Lemma class_size_perm (c : Z) (v1 v2 : list Flower) :
  v1 ≡ₚ v2 → class_size c v1 = class_size c v2.
Proof. intros Hp. unfold class_size, size. by rewrite Hp. Qed.

Lemma count_flowers_perm (v1 v2 : list Flower) :
  v1 ≡ₚ v2 → count_flowers v1 = count_flowers v2.
Proof.
  intros Hp. rewrite !count_flowers_eq.
  by rewrite !(class_size_perm _ _ _ Hp).
Qed.

(** C10: the three counts of [count_class] add up to the number of flowers
    whose class is one of the three enumerators; this is the size of the
    partition when every class is valid, and less as soon as one flower
    carries another code, since [count_step] passes such a flower by
    ([read_from] stores the parsed code as it is). *)
Theorem count_class_sum (n : Node) (a b c : Z) :
  count_class n = (a, b, c) →
  (a + b + c = size (filter (λ fl, valid_class (get_class fl)) (flowers_ n)))%Z
  ∧ (Forall (λ fl, valid_class (get_class fl)) (flowers_ n) →
     (a + b + c = size (flowers_ n))%Z)
  ∧ (∀ fl, fl ∈ flowers_ n → ¬ valid_class (get_class fl) →
     (a + b + c < size (flowers_ n))%Z)
  ∧ (∀ acc sl sw pl pw code, ¬ valid_class code →
     count_step acc (read_from sl sw pl pw code) = acc).
Proof using Type.
  unfold count_class. rewrite count_flowers_eq. intros [= <- <- <-].
  rewrite class_size_sum. repeat split.
  - intros Hall.
    assert (filter (λ fl, valid_class (get_class fl)) (flowers_ n) = flowers_ n)
      as ->; [|done].
    induction Hall as [|fl v Hfl _ IH]; [done|].
    by rewrite filter_cons_True, IH.
  - intros fl Hin Hbad. unfold size.
    pose proof (length_filter (λ fl, valid_class (get_class fl)) (flowers_ n)) as Hle.
    assert (length (filter (λ fl, valid_class (get_class fl)) (flowers_ n))
            ≠ length (flowers_ n)); [|lia].
    intros Heq. induction (flowers_ n) as [|x v IH]; [by apply elem_of_nil in Hin|].
    rewrite filter_cons in Heq, Hle. simpl in *.
    pose proof (length_filter (λ fl, valid_class (get_class fl)) v).
    case_decide; simpl in *; [|lia].
    apply elem_of_cons in Hin as [->|Hin]; [done|].
    apply IH; [done|lia|lia].
  - intros [[a b] c] sl sw pl pw code Hbad.
    unfold count_step, read_from, get_class, valid_class in *. simpl.
    repeat case_decide; try done; destruct Hbad; auto.
Qed.

(** ** The label of a leaf *)

Lemma find_best_valid (a b c : Z) (g : rng) :
  rng_ok g → valid_class (find_best a b c g).
Proof using Type.
  intros [Hd2 Hd1].
  unfold find_best, valid_class, setosa, versicolor, virginica.
  repeat case_decide; repeat case_bool_decide; simpl; lia.
Qed.

(** C2: [find_best] returns one of the three classes, always one of
    greatest count: with three equal counts the class drawn by [d2] among
    the three, with two equal greatest counts the one of the two that [d1]
    draws, and otherwise (two equal least counts, or three distinct counts)
    the only class of greatest count, whatever the generator. *)
Theorem find_best_policy (a b c : Z) (g : rng) :
  rng_ok g →
  let r := find_best a b c g in
  valid_class r
  ∧ (a = b ∧ b = c →
     top_classes a b c = [setosa; versicolor; virginica] ∧ r = d2 g)
  ∧ (two_on_top a b c →
     ∃ t0 t1, top_classes a b c = [t0; t1] ∧ t0 ≠ t1
       ∧ r = if decide (d1 g = 0%Z) then t0 else t1)
  ∧ (one_on_top a b c →
     top_classes a b c = [r] ∧ ∀ g', find_best a b c g' = r).
Proof.
  intros [Hd2 Hd1].
  assert (d2 g = 0 ∨ d2 g = 1 ∨ d2 g = 2)%Z as Hd2' by lia.
  assert (d1 g = 0 ∨ d1 g = 1)%Z as Hd1' by lia.
  unfold top_classes, two_on_top, one_on_top, valid_class, class_count,
    setosa, versicolor, virginica.
  rewrite !filter_cons, filter_nil. simpl.
  split; [|split; [|split]].
  - unfold find_best. repeat case_decide; repeat case_bool_decide; simpl; lia.
  - intros [-> ->]. split.
    + repeat case_decide; try lia; done.
    + unfold find_best. by rewrite decide_True.
  - intros Htwo. unfold find_best.
    destruct Htwo as [[-> ?]|[[-> ?]|[-> ?]]];
      repeat case_decide; try lia;
      (eexists _, _; split; [reflexivity|split; [done|lia]]).
  - intros Hone. split; [|intros g']; unfold find_best;
    destruct Hone as [[-> ?]|[[-> ?]|[[-> ?]|(? & ? & ?)]]];
      repeat case_decide; repeat case_bool_decide; try lia; simpl; try done.
Qed.


(** ** The gain of a split *)

Lemma fdiv_Ok (a b : Z) : b ≠ 0%Z → fdiv a b = Ok (Qc_of_Z a / Qc_of_Z b)%Qc.
Proof. intros Hb. unfold fdiv. by rewrite decide_False. Qed.

Lemma I_over_Ok (a b c total : Z) :
  total ≠ 0%Z → ∃ i, I_over a b c total = Ok i.
Proof. intros Ht. unfold I_over. rewrite !fdiv_Ok by done. simpl. eauto. Qed.

Lemma split_node_Ok (index : Z) (n n' : Node) :
  split_node index n = Ok n' ↔
  (0 ≤ index ≤ size (flowers_ n))%Z ∧
  n' = set_children
         (Some (new_Node (take (Z.to_nat index) (flowers_ n)) (position_ n +:+ "L")))
         (Some (new_Node (drop (Z.to_nat index) (flowers_ n)) (position_ n +:+ "R")))
         n.
Proof.
  unfold split_node. case_decide; [|by split; [|intros []]].
  split; [by intros [= <-]|by intros [_ ->]].
Qed.

(** What [gain] returns is fixed by the class counts of the node and of
    its two children. *)
Lemma gain_ext (n1 n2 l1 l2 r1 r2 : Node) :
  left_ n1 = Some l1 → right_ n1 = Some r1 →
  left_ n2 = Some l2 → right_ n2 = Some r2 →
  count_class n1 = count_class n2 →
  count_class l1 = count_class l2 →
  count_class r1 = count_class r2 →
  gain n1 = gain n2.
Proof.
  intros Hl1 Hr1 Hl2 Hr2 Hn Hl Hr. unfold gain.
  rewrite Hl1, Hr1, Hl2, Hr2, Hn. simpl. by rewrite Hl, Hr.
Qed.

(** A node with both children present: [gain] divides by no zero, and is
    [0] at once when one child has no flower of a valid class. *)
Lemma gain_children (n l r : Node) :
  left_ n = Some l → right_ n = Some r →
  flowers_ l ++ flowers_ r ≡ₚ flowers_ n →
  ∃ g, gain n = Ok g ∧ (flowers_ l = [] ∨ flowers_ r = [] → g = 0%Qc).
Proof.
  intros Hl Hr Hp. unfold gain, count_class. rewrite Hl, Hr. simpl.
  rewrite <-(count_flowers_perm _ _ Hp), !count_flowers_eq, !class_size_app.
  pose proof (class_size_nonneg setosa (flowers_ l)).
  pose proof (class_size_nonneg versicolor (flowers_ l)).
  pose proof (class_size_nonneg virginica (flowers_ l)).
  pose proof (class_size_nonneg setosa (flowers_ r)).
  pose proof (class_size_nonneg versicolor (flowers_ r)).
  pose proof (class_size_nonneg virginica (flowers_ r)).
  case_decide as Hz.
  - eauto.
  - destruct (I_over_Ok
      (class_size setosa (flowers_ l) + class_size setosa (flowers_ r))
      (class_size versicolor (flowers_ l) + class_size versicolor (flowers_ r))
      (class_size virginica (flowers_ l) + class_size virginica (flowers_ r))
      (class_size setosa (flowers_ l) + class_size setosa (flowers_ r)
       + (class_size versicolor (flowers_ l) + class_size versicolor (flowers_ r))
       + (class_size virginica (flowers_ l) + class_size virginica (flowers_ r))))
      as [i ->]; [lia|].
    destruct (I_over_Ok (class_size setosa (flowers_ l))
      (class_size versicolor (flowers_ l)) (class_size virginica (flowers_ l))
      (class_size setosa (flowers_ l) + class_size versicolor (flowers_ l)
       + class_size virginica (flowers_ l))) as [i1 ->]; [lia|].
    destruct (I_over_Ok (class_size setosa (flowers_ r))
      (class_size versicolor (flowers_ r)) (class_size virginica (flowers_ r))
      (class_size setosa (flowers_ r) + class_size versicolor (flowers_ r)
       + class_size virginica (flowers_ r))) as [i2 ->]; [lia|].
    rewrite !fdiv_Ok by lia. simpl. eexists. split; [done|].
    intros [Hnil|Hnil]; rewrite Hnil in Hz; exfalso; apply Hz;
      unfold class_size, size; simpl; lia.
Qed.

Lemma gain_split_node (index : Z) (n n' : Node) :
  split_node index n = Ok n' →
  ∃ g, gain n' = Ok g
    ∧ gain_at (flowers_ n) index = Ok g
    ∧ ((index = 0 ∨ index = size (flowers_ n))%Z → g = 0%Qc).
Proof.
  intros Hs. apply split_node_Ok in Hs as [Hi ->].
  set (l := new_Node (take (Z.to_nat index) (flowers_ n)) (position_ n +:+ "L")).
  set (r := new_Node (drop (Z.to_nat index) (flowers_ n)) (position_ n +:+ "R")).
  destruct (gain_children (set_children (Some l) (Some r) n) l r)
    as (g & Hg & Hz); [done|done| |].
  { simpl. by rewrite take_drop. }
  exists g. split; [done|]. split.
  - unfold gain_at, split_node. simpl. rewrite decide_True by done. simpl.
    rewrite <-Hg. by eapply gain_ext.
  - intros Hio. apply Hz. simpl. destruct Hio as [->| ->].
    + left. by rewrite take_0.
    + right. unfold size. rewrite Nat2Z.id. by rewrite drop_all.
Qed.


(** ** Sorted vectors *)

Lemma filter_all {A} (P : A → Prop) `{!∀ x, Decision (P x)} (l : list A) :
  (∀ x, x ∈ l → P x) → filter P l = l.
Proof.
  induction l as [|a l IH]; intros Hl; [done|].
  rewrite filter_cons_True by (apply Hl; left).
  f_equal. apply IH. intros x Hx. apply Hl. by right.
Qed.

Lemma filter_none {A} (P : A → Prop) `{!∀ x, Decision (P x)} (l : list A) :
  (∀ x, x ∈ l → ¬ P x) → filter P l = [].
Proof.
  induction l as [|a l IH]; intros Hl; [done|].
  rewrite filter_cons_False by (apply Hl; left).
  apply IH. intros x Hx. apply Hl. by right.
Qed.

Lemma sorted_by_strongly (f : Feature) (v : list Flower) :
  sorted_by f v → StronglySorted (λ x y, feature x f ≤ feature y f)%Qc v.
Proof.
  apply Sorted_StronglySorted. intros x y z. apply Qcle_trans.
Qed.

Lemma sorted_by_lookup (f : Feature) (v : list Flower) (i j : nat) (a b : Flower) :
  sorted_by f v → i ≤ j → v !! i = Some a → v !! j = Some b →
  (feature a f ≤ feature b f)%Qc.
Proof.
  intros Hs%sorted_by_strongly. revert i j.
  induction Hs as [|x v Hs IH Hall]; intros i j Hij Hi Hj; [done|].
  destruct i as [|i], j as [|j]; simpl in *; simplify_eq.
  - apply Qcle_refl.
  - rewrite Forall_forall in Hall. apply Hall.
    by eapply list_elem_of_lookup_2.
  - lia.
  - eapply (IH i j); [lia|done..].
Qed.

(** Two sorted arrangements of the same flowers carry the same sequence
    of feature values. *)
Lemma sorted_by_values (f : Feature) (v1 v2 : list Flower) :
  sorted_by f v1 → sorted_by f v2 → v1 ≡ₚ v2 →
  (λ x, feature x f) <$> v1 = (λ x, feature x f) <$> v2.
Proof.
  intros Hs1 Hs2 Hp.
  apply (Sorted_unique Qcle).
  - eapply Sorted_fmap; [|exact Hs1]. done.
  - eapply Sorted_fmap; [|exact Hs2]. done.
  - by apply fmap_Permutation.
Qed.

(** At a change of value, the flowers before the index are those below
    the value reached. *)
Lemma sorted_by_take (f : Feature) (v : list Flower) (i : nat) (x y : Flower) :
  sorted_by f v → v !! i = Some x → v !! S i = Some y →
  feature x f ≠ feature y f →
  take (S i) v = filter (λ z, feature z f < feature y f)%Qc v
  ∧ (feature x f < feature y f)%Qc.
Proof.
  intros Hs Hx Hy Hne.
  assert (feature x f < feature y f)%Qc as Hlt.
  { destruct (Qclt_le_dec (feature x f) (feature y f)) as [|Hle]; [done|].
    destruct Hne. apply Qcle_antisym; [|done].
    eapply (sorted_by_lookup f v i (S i)); eauto. }
  split; [|done].
  rewrite <-(take_drop (S i) v) at 2. rewrite filter_app.
  rewrite (filter_none _ (drop (S i) v)), (filter_all _ (take (S i) v)).
  - by rewrite app_nil_r.
  - intros z [j Hj]%list_elem_of_lookup_1.
    apply lookup_take_Some in Hj as [Hj Hlt'].
    eapply Qcle_lt_trans; [|exact Hlt].
    eapply (sorted_by_lookup f v j i); eauto with lia.
  - intros z [j Hj]%list_elem_of_lookup_1. rewrite lookup_drop in Hj.
    apply Qcle_not_lt.
    eapply (sorted_by_lookup f v (S i) (S i + j)); eauto with lia.
Qed.


(** ** The split search *)

Lemma skip_equal_spec (fuel : nat) (f : Feature) (v : list Flower) (sp : Z) :
  (1 ≤ sp)%Z → (size v - sp ≤ Z.of_nat fuel)%Z →
  ∃ sp', skip_equal fuel f v sp = Ok sp'
    ∧ (sp ≤ sp')%Z ∧ (sp' ≤ size v ∨ sp' = sp)%Z
    ∧ ((sp' < size v)%Z → value_changes f v sp').
Proof.
  revert sp. induction fuel as [|fuel IH]; intros sp Hsp Hfuel; simpl.
  - rewrite decide_False by lia. exists sp. repeat split; [lia|lia|lia].
  - case_decide as Hlt.
    + destruct (vec_at_in_range v (sp - 1)) as (x & -> & Hx); [lia|].
      destruct (vec_at_in_range v sp) as (y & -> & Hy); [lia|]. simpl.
      case_decide as Hne.
      * exists sp. repeat split; [lia|lia|]. intros _. by exists x, y.
      * destruct (IH (sp + 1)%Z) as (sp' & -> & ? & ? & ?); [lia|lia|].
        exists sp'. repeat split; [lia|lia|done].
    + exists sp. repeat split; [lia|lia|lia].
Qed.

Lemma vec_at_values (f : Feature) (v1 v2 : list Flower) (i : Z) :
  (λ x, feature x f) <$> v1 = (λ x, feature x f) <$> v2 →
  match vec_at v1 i, vec_at v2 i with
  | Ok x, Ok y => feature x f = feature y f
  | Fault, Fault => True
  | _, _ => False
  end.
Proof.
  intros Hv. unfold vec_at. case_decide; [|done].
  pose proof (f_equal (.!! Z.to_nat i) Hv) as Hi. simpl in Hi.
  rewrite !list_lookup_fmap in Hi.
  destruct (v1 !! _), (v2 !! _); simpl in *; by simplify_eq.
Qed.

Lemma skip_equal_values (fuel : nat) (f : Feature) (v1 v2 : list Flower) (sp : Z) :
  (λ x, feature x f) <$> v1 = (λ x, feature x f) <$> v2 →
  skip_equal fuel f v1 sp = skip_equal fuel f v2 sp.
Proof.
  intros Hv. assert (size v1 = size v2) as Hsz.
  { unfold size. by rewrite <-(length_fmap (λ x, feature x f) v1), Hv, length_fmap. }
  revert sp. induction fuel as [|fuel IH]; intros sp; simpl; rewrite Hsz; [done|].
  case_decide; [|done].
  pose proof (vec_at_values f v1 v2 (sp - 1) Hv) as H1.
  pose proof (vec_at_values f v1 v2 sp Hv) as H2.
  destruct (vec_at v1 (sp - 1)), (vec_at v2 (sp - 1)); try done. simpl.
  destruct (vec_at v1 sp), (vec_at v2 sp); try done. simpl.
  rewrite H1, H2. by case_decide.
Qed.

Lemma max_gain_loop_spec (fuel : nat) (f : Feature) (n : Node) (sp : Z)
    (cur : Qc) (idx : Z) :
  (1 ≤ sp)%Z → (size (flowers_ n) - sp ≤ 2 * Z.of_nat fuel)%Z →
  (0 ≤ cur)%Qc → (1 ≤ idx < size (flowers_ n))%Z →
  ((0 < cur)%Qc →
     gain_at (flowers_ n) idx = Ok cur ∧ value_changes f (flowers_ n) idx) →
  ∃ n' cur' idx',
    max_gain_loop fuel f n sp cur idx = Ok (n', cur', idx')
    ∧ flowers_ n' = flowers_ n ∧ position_ n' = position_ n
    ∧ (cur ≤ cur')%Qc ∧ (1 ≤ idx' < size (flowers_ n))%Z
    ∧ ((0 < cur')%Qc →
         gain_at (flowers_ n) idx' = Ok cur' ∧ value_changes f (flowers_ n) idx').
Proof.
  revert n sp cur idx.
  induction fuel as [|fuel IH]; intros n sp cur idx Hsp Hfuel Hcur Hidx Hpos; simpl.
  { rewrite decide_False by lia. exists n, cur, idx.
    split_and!; (done || lia). }
  case_decide as Hlt;
    [|exists n, cur, idx; split_and!; (done || lia)].
  destruct (skip_equal_spec (length (flowers_ n)) f (flowers_ n) sp)
    as (sp' & -> & Hle & Hup & Hch); [lia|unfold size; lia|]. simpl.
  destruct (split_node sp' n) as [n1| |] eqn:Hs; simpl;
    [|unfold split_node in Hs; rewrite decide_True in Hs by lia; done..].
  destruct (gain_split_node _ _ _ Hs) as (g & -> & Hat & Hz). simpl.
  apply split_node_Ok in Hs as [_ Hn1].
  assert (flowers_ n1 = flowers_ n) as Hfl by (by subst n1).
  assert (position_ n1 = position_ n) as Hpo by (by subst n1).
  case_decide as Hbetter.
  - assert (sp' < size (flowers_ n))%Z as Hin.
    { destruct (decide (sp' = size (flowers_ n))) as [Heq|]; [|lia].
      rewrite Hz in Hbetter by auto.
      destruct (Qclt_not_le _ _ Hbetter Hcur). }
    destruct (IH n1 (sp' + 1 + 1)%Z g sp') as (n' & cur' & idx' & -> & ? & ? & ? & ? & ?);
      rewrite ?Hfl; [lia|lia| | |auto|].
    { apply Qclt_le_weak. by eapply Qcle_lt_trans. }
    { lia. }
    exists n', cur', idx'. rewrite <-Hfl, <-Hpo.
    split_and!; try done; try lia.
    eapply Qcle_trans; [|done]. by apply Qclt_le_weak.
  - destruct (IH n1 (sp' + 1 + 1)%Z cur idx) as (n' & cur' & idx' & -> & ? & ? & ? & ? & ?);
      rewrite ?Hfl; [lia|lia|done|done|done|].
    exists n', cur', idx'. rewrite <-Hfl, <-Hpo.
    split_and!; (done || lia).
Qed.


Lemma std_sort_size (f : Feature) (v : list Flower) :
  size (std_sort f v) = size v.
Proof. unfold size. by rewrite std_sort_perm. Qed.

(** What [max_gain] returns on a partition of two flowers or more, and the
    node it leaves. *)
Lemma max_gain_spec (f : Feature) (n : Node) :
  (2 ≤ size (flowers_ n))%Z →
  ∃ g idx x y,
    max_gain f n =
      Ok (g, mkNode (feature_name f) ((feature x f + feature y f) / 2)%Qc
               (position_ n) (std_sort f (flowers_ n))
               (Some (new_Node (take (Z.to_nat idx) (std_sort f (flowers_ n)))
                               (position_ n +:+ "L")))
               (Some (new_Node (drop (Z.to_nat idx) (std_sort f (flowers_ n)))
                               (position_ n +:+ "R"))))
    ∧ (1 ≤ idx < size (flowers_ n))%Z ∧ (0 ≤ g)%Qc
    ∧ std_sort f (flowers_ n) !! Z.to_nat (idx - 1) = Some x
    ∧ std_sort f (flowers_ n) !! Z.to_nat idx = Some y
    ∧ ((0 < g)%Qc →
         gain_at (std_sort f (flowers_ n)) idx = Ok g
         ∧ feature x f ≠ feature y f).
Proof.
  intros Hsz. unfold max_gain.
  set (n0 := sort_flowers_by f n).
  assert (flowers_ n0 = std_sort f (flowers_ n)) as Hfl0 by done.
  assert (size (flowers_ n0) = size (flowers_ n)) as Hsz0.
  { rewrite Hfl0. apply std_sort_size. }
  destruct (max_gain_loop_spec (length (flowers_ n0)) f n0 1 0%Qc 1)
    as (n' & g & idx & -> & Hfl & Hpo & Hg & Hidx & Hpos);
    [lia|unfold size in *; lia|done|lia| |].
  { intros []%Qclt_not_eq. done. }
  simpl. unfold split_node. rewrite Hfl, decide_True by lia. simpl.
  rewrite Hfl.
  destruct (vec_at_in_range (flowers_ n0) (idx - 1)) as (x & -> & Hx); [lia|].
  destruct (vec_at_in_range (flowers_ n0) idx) as (y & -> & Hy); [lia|].
  simpl. exists g, idx, x, y. rewrite <-Hfl0.
  split_and!; try done; try lia.
  { unfold set_feature, set_threshold, set_children. simpl.
    by rewrite Hfl, Hpo. }
  intros Hgpos. destruct (Hpos Hgpos) as (Hat & x' & y' & Hx' & Hy' & Hne).
  split; [done|]. congruence.
Qed.

Lemma value_changes_values (f : Feature) (v1 v2 : list Flower) (i : Z) :
  (λ x, feature x f) <$> v1 = (λ x, feature x f) <$> v2 →
  value_changes f v1 i → value_changes f v2 i.
Proof.
  intros Hv (x & y & Hx & Hy & Hne).
  pose proof (f_equal (.!! Z.to_nat (i - 1)) Hv) as H1.
  pose proof (f_equal (.!! Z.to_nat i) Hv) as H2. simpl in *.
  rewrite !list_lookup_fmap in H1, H2. rewrite Hx in H1. rewrite Hy in H2.
  destruct (v2 !! Z.to_nat (i - 1)) as [x2|] eqn:Hx2; [|done].
  destruct (v2 !! Z.to_nat i) as [y2|] eqn:Hy2; [|done].
  simpl in *. exists x2, y2. split_and!; [done..|]. congruence.
Qed.

(** The class counts on both sides of a split at a change of value, or at
    the end, do not depend on how equal values were arranged. *)
Lemma split_counts_perm (f : Feature) (v1 v2 : list Flower) (i : Z) :
  sorted_by f v1 → sorted_by f v2 → v1 ≡ₚ v2 → (1 ≤ i)%Z →
  (i = size v1 ∨ value_changes f v1 i) →
  count_flowers (take (Z.to_nat i) v1) = count_flowers (take (Z.to_nat i) v2)
  ∧ count_flowers (drop (Z.to_nat i) v1) = count_flowers (drop (Z.to_nat i) v2).
Proof.
  intros Hs1 Hs2 Hp Hi Hcase.
  pose proof (sorted_by_values f v1 v2 Hs1 Hs2 Hp) as Hv.
  assert (take (Z.to_nat i) v1 ≡ₚ take (Z.to_nat i) v2) as Htake.
  { destruct Hcase as [->|Hch].
    - unfold size. rewrite Nat2Z.id, take_ge by done.
      rewrite take_ge by (by rewrite Hp). done.
    - pose proof (value_changes_values f v1 v2 i Hv Hch) as Hch2.
      destruct Hch as (x & y & Hx & Hy & Hne).
      destruct Hch2 as (x2 & y2 & Hx2 & Hy2 & Hne2).
      replace (Z.to_nat i) with (S (Z.to_nat (i - 1))) in * by lia.
      destruct (sorted_by_take f v1 _ x y Hs1 Hx Hy Hne) as [-> _].
      destruct (sorted_by_take f v2 _ x2 y2 Hs2 Hx2 Hy2 Hne2) as [-> _].
      assert (feature y f = feature y2 f) as ->.
      { pose proof (f_equal (.!! S (Z.to_nat (i - 1))) Hv) as H2. simpl in H2.
        rewrite !list_lookup_fmap, Hy, Hy2 in H2. by simplify_eq/=. }
      by rewrite Hp. }
  split; [by apply count_flowers_perm|].
  pose proof (count_flowers_perm _ _ Hp) as Hall.
  pose proof (count_flowers_perm _ _ Htake) as Ht.
  rewrite <-(take_drop (Z.to_nat i) v1), <-(take_drop (Z.to_nat i) v2) in Hall.
  rewrite !count_flowers_eq, !class_size_app in *.
  simplify_eq. repeat (apply (f_equal2 pair)); lia.
Qed.

Lemma gain_at_perm (f : Feature) (v1 v2 : list Flower) (i : Z) :
  sorted_by f v1 → sorted_by f v2 → v1 ≡ₚ v2 → (1 ≤ i)%Z →
  (i = size v1 ∨ value_changes f v1 i) →
  gain_at v1 i = gain_at v2 i.
Proof.
  intros Hs1 Hs2 Hp Hi Hcase.
  destruct (split_counts_perm f v1 v2 i) as [Ht Hd]; [done..|].
  unfold gain_at, split_node. simpl.
  assert (size v1 = size v2) as <- by (unfold size; by rewrite Hp).
  case_decide; [|done]. simpl.
  eapply gain_ext; try done. unfold count_class. simpl.
  by apply count_flowers_perm.
Qed.


Lemma max_gain_loop_perm (fuel : nat) (f : Feature) (n1 n2 : Node) (sp : Z)
    (cur : Qc) (idx : Z) (r1 r2 : Node * Qc * Z) :
  sorted_by f (flowers_ n1) → sorted_by f (flowers_ n2) →
  flowers_ n1 ≡ₚ flowers_ n2 → (1 ≤ sp)%Z →
  max_gain_loop fuel f n1 sp cur idx = Ok r1 →
  max_gain_loop fuel f n2 sp cur idx = Ok r2 →
  r1.1.2 = r2.1.2 ∧ r1.2 = r2.2.
Proof.
  revert n1 n2 sp cur idx.
  induction fuel as [|fuel IH]; intros n1 n2 sp cur idx Hs1 Hs2 Hp Hsp; simpl.
  { do 2 (case_decide; [done|]). by intros [= <-] [= <-]. }
  assert (size (flowers_ n1) = size (flowers_ n2)) as Hsz.
  { unfold size. by rewrite Hp. }
  pose proof (sorted_by_values f _ _ Hs1 Hs2 Hp) as Hv.
  rewrite <-Hsz. case_decide as Hlt; [|by intros [= <-] [= <-]].
  replace (length (flowers_ n2)) with (length (flowers_ n1)) by (by rewrite Hp).
  rewrite <-(skip_equal_values _ f _ _ sp Hv).
  destruct (skip_equal_spec (length (flowers_ n1)) f (flowers_ n1) sp)
    as (sp' & -> & Hle & Hup & Hch); [lia|unfold size; lia|]. simpl.
  intros (m1 & Hsp1 & H1)%bind_Ok (m2 & Hsp2 & H2)%bind_Ok.
  destruct (gain_split_node _ _ _ Hsp1) as (g1 & Hg1 & Hat1 & _).
  destruct (gain_split_node _ _ _ Hsp2) as (g2 & Hg2 & Hat2 & _).
  rewrite Hg1 in H1. rewrite Hg2 in H2. simpl in *.
  assert (g1 = g2) as <-.
  { rewrite (gain_at_perm f _ _ sp' Hs1 Hs2 Hp) in Hat1; [congruence|lia|].
    destruct (decide (sp' = size (flowers_ n1))); [by left|right].
    apply Hch. lia. }
  apply split_node_Ok in Hsp1 as [_ ->]. apply split_node_Ok in Hsp2 as [_ ->].
  destruct (decide (cur < g1)%Qc); eapply IH; try exact H1; try exact H2;
    simpl; (done || lia).
Qed.

(** The gain [max_gain] finds depends on the flowers of the node only as a
    multiset. *)
Lemma max_gain_perm (f : Feature) (n1 n2 : Node) (g1 g2 : Qc) (m1 m2 : Node) :
  flowers_ n1 ≡ₚ flowers_ n2 →
  max_gain f n1 = Ok (g1, m1) → max_gain f n2 = Ok (g2, m2) → g1 = g2.
Proof.
  intros Hp. unfold max_gain.
  intros ([[n1' c1] i1] & Hl1 & H1)%bind_Ok ([[n2' c2] i2] & Hl2 & H2)%bind_Ok.
  replace (length (flowers_ (sort_flowers_by f n2)))
    with (length (flowers_ (sort_flowers_by f n1))) in Hl2.
  2:{ simpl. by rewrite !std_sort_perm, Hp. }
  destruct (max_gain_loop_perm _ f (sort_flowers_by f n1) (sort_flowers_by f n2)
    1 0%Qc 1 _ _
    (std_sort_sorted f (flowers_ n1)) (std_sort_sorted f (flowers_ n2))
    ltac:(simpl; by rewrite !std_sort_perm) ltac:(lia) Hl1 Hl2) as [Hc _].
  simpl in Hc. subst c2.
  apply bind_Ok in H1 as (? & _ & (? & _ & (? & _ & [= <- _])%bind_Ok)%bind_Ok).
  apply bind_Ok in H2 as (? & _ & (? & _ & (? & _ & [= <- _])%bind_Ok)%bind_Ok).
  done.
Qed.

Lemma max_gain_best_gain (f : Feature) (n : Node) (g : Qc) (m : Node) :
  max_gain f n = Ok (g, m) → (2 ≤ size (flowers_ n))%Z →
  g = best_gain f (flowers_ n).
Proof.
  intros Hg Hsz. unfold best_gain.
  destruct (max_gain_spec f (new_Node (flowers_ n) "")) as (g' & ? & ? & ? & Hg' & _);
    [done|].
  rewrite Hg'.
  eapply (max_gain_perm f n (new_Node (flowers_ n) "")); [done|exact Hg|exact Hg'].
Qed.

Lemma best_gain_perm (f : Feature) (v1 v2 : list Flower) :
  v1 ≡ₚ v2 → best_gain f v1 = best_gain f v2.
Proof.
  intros Hp. destruct (decide (2 ≤ size v1)%Z) as [Hsz|Hsz].
  - destruct (max_gain_spec f (new_Node v1 "")) as (g1 & ? & ? & ? & Hg1 & _); [done|].
    destruct (max_gain_spec f (new_Node v2 "")) as (g2 & ? & ? & ? & Hg2 & _).
    { simpl. unfold size in *. by rewrite <-Hp. }
    unfold best_gain. rewrite Hg1, Hg2.
    eapply (max_gain_perm f (new_Node v1 "") (new_Node v2 ""));
      [done|exact Hg1|exact Hg2].
  - assert (∀ v : list Flower, ¬ (2 ≤ size v)%Z → best_gain f v = 0%Qc) as Hsmall.
    { intros v Hv. unfold best_gain, max_gain.
      assert (length (flowers_ (sort_flowers_by f (new_Node v ""))) = length v)
        as Hlen by (simpl; by rewrite std_sort_perm).
      destruct (length v) as [|[|?]] eqn:Hl; [| |unfold size in Hv; lia].
      - rewrite Hlen. simpl in *.
        rewrite decide_False by (unfold size; rewrite Hlen; lia).
        simpl. unfold split_node. simpl.
        by rewrite decide_False by (unfold size; rewrite Hlen; lia).
      - rewrite Hlen. simpl in *.
        rewrite decide_False by (unfold size; rewrite Hlen; lia).
        simpl. unfold split_node. case_decide; [|done]. simpl.
        rewrite (vec_at_out_of_range _ 1); [by destruct (vec_at _ _)|].
        right. unfold size. rewrite Hlen. lia. }
    rewrite !Hsmall; [done| |done]. unfold size in *. by rewrite <-Hp.
Qed.


(** ** Building the tree *)

Lemma size_minus_1_nonempty {A} (v : list A) :
  v ≠ [] → size_minus_1 v = (size v - 1)%Z.
Proof. by destruct v. Qed.

Lemma same_class_adjacent (v : list Flower) :
  same_class v ↔
  ∀ j x y, v !! j = Some x → v !! S j = Some y → get_class x = get_class y.
Proof.
  split.
  - intros Hs j x y Hx Hy. apply Hs; by eapply list_elem_of_lookup_2.
  - intros Hadj.
    assert (∀ i j x y, v !! i = Some x → v !! (i + j) = Some y →
              get_class x = get_class y) as Hall.
    { intros i j. induction j as [|j IH]; intros x y Hx Hy.
      - rewrite Nat.add_0_r in Hy. congruence.
      - destruct (lookup_lt_is_Some_2 v (i + j)) as [z Hz].
        { apply lookup_lt_Some in Hy. lia. }
        rewrite (IH x z Hx Hz). apply (Hadj (i + j)); [done|].
        by rewrite <-Nat.add_succ_r. }
    intros x y [i Hi]%list_elem_of_lookup_1 [j Hj]%list_elem_of_lookup_1.
    destruct (decide (i ≤ j)).
    + apply (Hall i (j - i)); [done|]. by replace (i + (j - i)) with j by lia.
    + symmetry. apply (Hall j (i - j)); [done|].
      by replace (j + (i - j)) with i by lia.
Qed.

Lemma purity_loop_spec (fuel : nat) (max_depth : Z) (n : Node) (k : nat) :
  k < length (flowers_ n) → length (flowers_ n) - k ≤ fuel →
  (∀ j x y, j < k → flowers_ n !! j = Some x → flowers_ n !! S j = Some y →
     get_class x = get_class y) →
  ∃ b, purity_loop fuel max_depth n (Z.of_nat k) = Ok b
    ∧ (b = true ↔ same_class (flowers_ n) ∨ depth_reached max_depth n)
    ∧ (b = false → 2 ≤ length (flowers_ n)).
Proof.
  revert k. induction fuel as [|fuel IH]; intros k Hk Hfuel Hpre; [lia|].
  assert (flowers_ n ≠ []) as Hne by (intros Hnil; rewrite Hnil in Hk; simpl in Hk; lia).
  simpl. rewrite (size_minus_1_nonempty _ Hne). unfold size.
  rewrite decide_True by lia.
  case_decide as Hstop.
  - exists true. split_and!; [done| |done]. split; [intros _|done].
    destruct Hstop as [Hlast|Hdepth]; [left|by right].
    apply same_class_adjacent. intros j x y Hx Hy. apply (Hpre j); [|done..].
    apply lookup_lt_Some in Hy. lia.
  - assert (Z.of_nat k ≠ (Z.of_nat (length (flowers_ n)) - 1)%Z) as Hlast by tauto.
    assert (¬ depth_reached max_depth n) as Hdepth by (unfold depth_reached; tauto).
    destruct (vec_at_in_range (flowers_ n) (Z.of_nat k)) as (x & -> & Hx);
      [unfold size; lia|].
    destruct (vec_at_in_range (flowers_ n) (Z.of_nat k + 1)) as (y & -> & Hy);
      [unfold size; lia|].
    simpl. rewrite Nat2Z.id in Hx.
    replace (Z.to_nat (Z.of_nat k + 1)) with (S k) in Hy by lia.
    case_decide as Hdiff.
    + exists false. split_and!; [done| |].
      * split; [done|]. intros [Hsame|?]; [|done].
        destruct Hdiff. by eapply (proj1 (same_class_adjacent _) Hsame k).
      * intros _. apply lookup_lt_Some in Hy. lia.
    + replace (Z.of_nat k + 1)%Z with (Z.of_nat (S k)) by lia.
      apply IH; [apply lookup_lt_Some in Hy; lia|lia|].
      intros j x' y' Hj Hx' Hy'.
      destruct (decide (j = k)) as [->|]; [|apply (Hpre j); [lia|done..]].
      congruence.
Qed.

Lemma purity_loop_empty (fuel : nat) (max_depth : Z) (n : Node) :
  flowers_ n = [] →
  (depth_reached max_depth n → purity_loop (S fuel) max_depth n 0 = Ok true)
  ∧ (¬ depth_reached max_depth n → purity_loop (S fuel) max_depth n 0 = Fault).
Proof.
  intros Hnil. simpl. rewrite Hnil. simpl.
  unfold depth_reached. split; intros Hd.
  - rewrite decide_True; [done|by right].
  - rewrite decide_False; [done|]. intros [?|?]; done.
Qed.

Lemma max_gain_step (f : Feature) (n : Node) :
  (2 ≤ size (flowers_ n))%Z →
  ∃ g m, max_gain f n = Ok (g, m)
    ∧ g = best_gain f (flowers_ n) ∧ (0 ≤ g)%Qc
    ∧ flowers_ m ≡ₚ flowers_ n ∧ position_ m = position_ n
    ∧ (2 ≤ size (flowers_ m))%Z.
Proof.
  intros Hsz.
  destruct (max_gain_spec f n Hsz) as (g & idx & x & y & Hg & ? & ? & _).
  eexists g, _. split; [exact Hg|].
  split_and!; simpl; try done.
  - by eapply max_gain_best_gain.
  - by rewrite std_sort_size.
Qed.


(** The chain of comparisons of [build_tree] picks the first feature of
    greatest gain. *)
Lemma choose_first_best {X : Type} (gSL gSW gPL gPW : Qc) (a b c d : X) :
  ∃ f,
    first_best (λ f, match f with SL => gSL | SW => gSW | PL => gPL | PW => gPW end) f
    ∧ (if decide (gSW ≤ gSL ∧ gPL ≤ gSL ∧ gPW ≤ gSL)%Qc then a
       else if decide (gSL ≤ gSW ∧ gPL ≤ gSW ∧ gPW ≤ gSW)%Qc then b
       else if decide (gSL ≤ gPL ∧ gSW ≤ gPL ∧ gPW ≤ gPL)%Qc then c
       else d)
      = match f with SL => a | SW => b | PL => c | PW => d end.
Proof.
  unfold first_best.
  destruct (decide (gSW ≤ gSL ∧ gPL ≤ gSL ∧ gPW ≤ gSL)%Qc) as [(?&?&?)|HA].
  { exists SL. split; [|done]. split; intros []; simpl; try lia; qc_order. }
  destruct (decide (gSL ≤ gSW ∧ gPL ≤ gSW ∧ gPW ≤ gSW)%Qc) as [(?&?&?)|HB].
  { exists SW. split; [|done]. split; intros []; simpl; try lia; try qc_order.
    intros _. apply Qcnot_le_lt. intros ?. apply HA. split_and!; qc_order. }
  destruct (decide (gSL ≤ gPL ∧ gSW ≤ gPL ∧ gPW ≤ gPL)%Qc) as [(?&?&?)|HC].
  { exists PL. split; [|done]. split; intros []; simpl; try lia; try qc_order.
    - intros _. apply Qcnot_le_lt. intros ?. apply HA. split_and!; qc_order.
    - intros _. apply Qcnot_le_lt. intros ?. apply HB. split_and!; qc_order. }
  exists PW. split; [|done].
  assert (gSL < gPW ∧ gSW < gPW ∧ gPL < gPW)%Qc as (?&?&?).
  { destruct (Qclt_le_dec gSL gPW), (Qclt_le_dec gSW gPW), (Qclt_le_dec gPL gPW);
      try done; exfalso.
    all: destruct (Qclt_le_dec gSL gSW), (Qclt_le_dec gSL gPL), (Qclt_le_dec gSW gPL);
      first [apply HA; split_and!; qc_order | apply HB; split_and!; qc_order
            | apply HC; split_and!; qc_order]. }
  split; intros []; simpl; try lia; try done; try (by apply Qclt_le_weak).
Qed.

(** One call of [build_tree] on a non-empty partition: either the node is
    made a leaf, or a split is committed and the two children are built,
    the left one first. *)
Lemma build_tree_unfold (fuel : nat) (max_depth : Z) (rnd : nat → rng)
    (n : Node) (k : nat) :
  flowers_ n ≠ [] →
  (leaf_condition max_depth n ∧
   ∃ n', flowers_ n' ≡ₚ flowers_ n ∧ position_ n' = position_ n
     ∧ build_tree (S fuel) max_depth rnd n k = Ok (make_leaf (rnd k) n', S k))
  ∨ (¬ leaf_condition max_depth n ∧ 2 ≤ length (flowers_ n) ∧
     ∃ f n' g m l r,
       first_best (λ f, best_gain f (flowers_ n)) f
       ∧ flowers_ n' ≡ₚ flowers_ n ∧ position_ n' = position_ n
       ∧ max_gain f n' = Ok (g, m)
       ∧ g = best_gain f (flowers_ n) ∧ (0 < g)%Qc
       ∧ left_ m = Some l ∧ right_ m = Some r
       ∧ flowers_ l ≠ [] ∧ flowers_ r ≠ []
       ∧ length (flowers_ l) < length (flowers_ n)
       ∧ length (flowers_ r) < length (flowers_ n)
       ∧ build_tree (S fuel) max_depth rnd n k =
           ('(tl, k1) ← build_tree fuel max_depth rnd l k;
            '(tr, k2) ← build_tree fuel max_depth rnd r k1;
            Ok (set_children (Some tl) (Some tr) m, k2))).
Proof.
  intros Hne.
  assert (0 < length (flowers_ n)) as Hlen by (destruct (flowers_ n); [done|simpl; lia]).
  destruct (purity_loop_spec (S (length (flowers_ n))) max_depth n 0)
    as (b & Hb & Hbt & Hbf); [lia|lia|lia|].
  change (Z.of_nat 0) with 0%Z in Hb.
  destruct b.
  { left. split; [unfold leaf_condition; tauto|]. exists n.
    split_and!; [done..|]. cbn [build_tree]. by rewrite Hb. }
  specialize (Hbf eq_refl).
  assert (¬ (same_class (flowers_ n) ∨ depth_reached max_depth n)) as Hnl.
  { intros H. by apply Hbt in H. }
  destruct (max_gain_step SL n) as (gSL & n1 & H1 & E1 & P1 & F1 & O1 & S1);
    [unfold size; lia|].
  destruct (max_gain_step SW n1) as (gSW & n2 & H2 & E2 & P2 & F2 & O2 & S2); [done|].
  destruct (max_gain_step PL n2) as (gPL & n3 & H3 & E3 & P3 & F3 & O3 & S3); [done|].
  destruct (max_gain_step PW n3) as (gPW & n4 & H4 & E4 & P4 & F4 & O4 & S4); [done|].
  assert (flowers_ n2 ≡ₚ flowers_ n) as F2' by (by rewrite F2).
  assert (flowers_ n3 ≡ₚ flowers_ n) as F3' by (by rewrite F3).
  assert (flowers_ n4 ≡ₚ flowers_ n) as F4' by (by rewrite F4).
  rewrite (best_gain_perm SW _ _ F1) in E2.
  rewrite (best_gain_perm PL _ _ F2') in E3.
  rewrite (best_gain_perm PW _ _ F3') in E4.
  cbn [build_tree]. rewrite Hb. cbn [mbind res_bind].
  rewrite H1. cbn [mbind res_bind]. rewrite H2. cbn [mbind res_bind].
  rewrite H3. cbn [mbind res_bind]. rewrite H4. cbn [mbind res_bind].
  case_decide as Hzero.
  { left. destruct Hzero as (Z1 & Z2 & Z3 & Z4). split.
    - right; right. intros []; congruence.
    - exists n4. split_and!; [done|congruence|done]. }
  right. split.
  { intros [?|[?|Hno]]; [tauto|tauto|]. apply Hzero.
    rewrite E1, E2, E3, E4. by rewrite !Hno. }
  split; [done|].
  destruct (choose_first_best gSL gSW gPL gPW
    (max_gain SL n4) (max_gain SW n4) (max_gain PL n4) (max_gain PW n4))
    as (f & Hfb & ->).
  assert (match f with
          | SL => max_gain SL n4 | SW => max_gain SW n4
          | PL => max_gain PL n4 | PW => max_gain PW n4
          end = max_gain f n4) as -> by (by destruct f).
  assert (∀ f', match f' with SL => gSL | SW => gSW | PL => gPL | PW => gPW end
                = best_gain f' (flowers_ n)) as HG by (by intros []).
  destruct (max_gain_spec f n4 S4) as (g & idx & x & y & Hg & Hidx & Hg0 & Hx & Hy & Hpos).
  rewrite Hg. cbn [mbind res_bind deref left_ right_].
  assert (g = best_gain f (flowers_ n)) as Eg.
  { rewrite <-(best_gain_perm f _ _ F4'). by eapply max_gain_best_gain. }
  assert (0 < g)%Qc as Hgpos.
  { destruct (Qclt_le_dec 0 g) as [|Hle]; [done|]. exfalso. apply Hzero.
    destruct Hfb as [Hmax _].
    pose proof (Hmax SL) as M1. pose proof (Hmax SW) as M2.
    pose proof (Hmax PL) as M3. pose proof (Hmax PW) as M4. simpl in *.
    assert (match f with SL => gSL | SW => gSW | PL => gPL | PW => gPW end = g) as Ef.
    { rewrite Eg. destruct f; congruence. }
    rewrite Ef in M1, M2, M3, M4.
    split_and!; apply Qcle_antisym; qc_order. }
  eexists f, n4, g, _, _, _.
  split_and!; [|done|congruence|exact Hg|done|done|done|done|..].
  - destruct Hfb as [Hmax Hfirst]. split.
    + intros f'. rewrite <-!HG. apply Hmax.
    + intros f' Hr. rewrite <-!HG. by apply Hfirst.
  - simpl. intros Hnil%(f_equal length). rewrite length_take in Hnil.
    unfold size in *. rewrite std_sort_perm in Hnil. simpl in Hnil. lia.
  - simpl. intros Hnil%(f_equal length). rewrite length_drop in Hnil.
    unfold size in *. rewrite std_sort_perm in Hnil. simpl in Hnil. lia.
  - simpl. rewrite length_take. unfold size in *. rewrite std_sort_perm, <-F4'. lia.
  - simpl. rewrite length_drop. unfold size in *. rewrite std_sort_perm, <-F4'. lia.
  - done.
Qed.


Lemma make_leaf_eq (g : rng) (n : Node) :
  ∃ a b c, count_class n = (a, b, c)
    ∧ make_leaf g n =
        mkNode (to_string (find_best a b c g)) 0%Qc (position_ n) (flowers_ n)
               None None.
Proof.
  unfold make_leaf. destruct (count_class n) as [[a b] c]. by exists a, b, c.
Qed.

Lemma build_tree_Built (fuel : nat) (max_depth : Z) (rnd : nat → rng)
    (n : Node) (k : nat) (t : Node) (k' : nat) :
  flowers_ n ≠ [] →
  build_tree fuel max_depth rnd n k = Ok (t, k') →
  Built max_depth rnd n k t k'.
Proof.
  revert n k t k'. induction fuel as [|fuel IH]; intros n k t k' Hne Hb; [done|].
  destruct (build_tree_unfold fuel max_depth rnd n k Hne)
    as [(Hleaf & n' & Hp & Hpos & Heq)
       |(Hnl & Hlen & f & n' & g & m & l & r & Hfb & Hp & Hpos & Hg & Eg & Hgpos
         & Hl & Hr & Hlne & Hrne & _ & _ & Heq)];
    rewrite Heq in Hb.
  - injection Hb as <- <-. by constructor.
  - apply bind_Ok in Hb as ([tl k1] & Hbl & Hb).
    apply bind_Ok in Hb as ([tr k2] & Hbr & Hb).
    injection Hb as <- <-.
    eapply Built_split; eauto.
Qed.

Lemma build_tree_returns (fuel : nat) (max_depth : Z) (rnd : nat → rng)
    (n : Node) (k : nat) :
  flowers_ n ≠ [] → length (flowers_ n) ≤ fuel →
  ∃ t k', build_tree fuel max_depth rnd n k = Ok (t, k').
Proof.
  revert n k. induction fuel as [|fuel IH]; intros n k Hne Hfuel.
  { destruct (flowers_ n); [done|simpl in Hfuel; lia]. }
  destruct (build_tree_unfold fuel max_depth rnd n k Hne)
    as [(Hleaf & n' & Hp & Hpos & Heq)
       |(Hnl & Hlen & f & n' & g & m & l & r & Hfb & Hp & Hpos & Hg & Eg & Hgpos
         & Hl & Hr & Hlne & Hrne & Hll & Hrl & Heq)];
    rewrite Heq; [eauto|].
  destruct (IH l k Hlne) as (tl & k1 & ->); [lia|]. simpl.
  destruct (IH r k1 Hrne) as (tr & k2 & ->); [lia|]. simpl. eauto.
Qed.

Lemma build_tree_no_fault (fuel : nat) (max_depth : Z) (rnd : nat → rng)
    (n : Node) (k : nat) :
  flowers_ n ≠ [] → build_tree fuel max_depth rnd n k ≠ Fault.
Proof.
  revert n k. induction fuel as [|fuel IH]; intros n k Hne; [done|].
  destruct (build_tree_unfold fuel max_depth rnd n k Hne)
    as [(Hleaf & n' & Hp & Hpos & Heq)
       |(Hnl & Hlen & f & n' & g & m & l & r & Hfb & Hp & Hpos & Hg & Eg & Hgpos
         & Hl & Hr & Hlne & Hrne & Hll & Hrl & Heq)];
    rewrite Heq; [done|].
  pose proof (IH l k Hlne) as Hlf.
  destruct (build_tree fuel max_depth rnd l k) as [[tl k1]| |]; [|done..]. simpl.
  pose proof (IH r k1 Hrne) as Hrf.
  by destruct (build_tree fuel max_depth rnd r k1) as [[tr k2]| |].
Qed.

Lemma build_tree_empty (fuel : nat) (max_depth : Z) (rnd : nat → rng)
    (n : Node) (k : nat) :
  flowers_ n = [] →
  (depth_reached max_depth n →
     build_tree (S fuel) max_depth rnd n k = Ok (make_leaf (rnd k) n, S k))
  ∧ (¬ depth_reached max_depth n →
     build_tree (S fuel) max_depth rnd n k = Fault).
Proof.
  intros Hnil.
  destruct (purity_loop_empty (length (flowers_ n)) max_depth n Hnil) as [H1 H2].
  split; intros Hd; cbn [build_tree]; [rewrite H1|rewrite H2]; done.
Qed.


(** ** Finished trees *)




Lemma subnodes_leaf (n : Node) :
  left_ n = None → right_ n = None → subnodes n = [n].
Proof. destruct n. simpl. by intros -> ->. Qed.

Lemma subnodes_children (m tl tr : Node) :
  subnodes (set_children (Some tl) (Some tr) m)
  = set_children (Some tl) (Some tr) m :: subnodes tl ++ subnodes tr.
Proof. done. Qed.




Lemma build_tree_Ok_cases (fuel : nat) (max_depth : Z) (rnd : nat → rng)
    (n : Node) (k : nat) (t : Node) (k' : nat) :
  build_tree fuel max_depth rnd n k = Ok (t, k') →
  Built max_depth rnd n k t k'
  ∨ (flowers_ n = [] ∧ depth_reached max_depth n
     ∧ t = make_leaf (rnd k) n ∧ k' = S k).
Proof.
  intros Hb. destruct (decide (flowers_ n = [])) as [Hnil|Hne].
  - right. destruct fuel as [|fuel]; [done|].
    destruct (build_tree_empty fuel max_depth rnd n k Hnil) as [H1 H2].
    destruct (decide (max_depth `mod` 2 ^ 64 = Z.of_nat (String.length (position_ n)))%Z)
      as [Hd|Hd].
    + rewrite (H1 Hd) in Hb. by injection Hb as <- <-.
    + by rewrite (H2 Hd) in Hb.
  - left. by eapply build_tree_Built.
Qed.



(** ** Classification *)

Lemma leaf_label_not_feature (lab : Z) :
  valid_class lab →
  to_string lab ≠ "SL" ∧ to_string lab ≠ "SW"
  ∧ to_string lab ≠ "PL" ∧ to_string lab ≠ "PW".
Proof. intros [->|[->| ->]]; by compute. Qed.

Lemma chosen_feature_name (f : Feature) : chosen_feature (feature_name f) = Some f.
Proof. by destruct f. Qed.

Lemma validate_flower_Built (max_depth : Z) (rnd : nat → rng) (n : Node)
    (k : nat) (t : Node) (k' : nat) (fl : Flower) :
  (∀ i, rng_ok (rnd i)) →
  Built max_depth rnd n k t k' →
  is_leaf (classify_leaf t fl) ∧ classify_leaf t fl ∈ subnodes t
  ∧ ∃ lab, valid_class lab ∧ feature_ (classify_leaf t fl) = to_string lab
      ∧ validate_flower t fl = Ok (bool_decide (get_class fl = lab)).
Proof.
  intros Hrnd.
  induction 1 as [n k n' Hne Hleaf Hp Hpos
                 |n k f n' g m l r tl k1 tr k2 Hnl Hlen Hfb Hp Hpos Hg Eg Hgpos
                  Hl Hr Hbl IHl Hbr IHr].
  - destruct (make_leaf_eq (rnd k) n') as (a & b & c & Hc & ->). simpl.
    pose proof (find_best_valid a b c (rnd k) (Hrnd k)) as Hvalid.
    destruct (leaf_label_not_feature _ Hvalid) as (?&?&?&?).
    split_and!; [done|left|]. eexists. split_and!; [exact Hvalid|done|].
    rewrite !decide_False by done. f_equal.
    apply bool_decide_ext. split; [intros Heq; by apply to_string_inj|by intros ->].
  - destruct (max_gain_spec f n') as (g' & idx & x & y & Hg' & _).
    { unfold size. rewrite Hp. lia. }
    rewrite Hg in Hg'. injection Hg' as _ ->.
    destruct IHl as (Hll & Hlin & labl & Hlv & Hlf & Hlval).
    destruct IHr as (Hrl & Hrin & labr & Hrv & Hrf & Hrval).
    rewrite subnodes_children.
    cbn [set_children classify_leaf feature_ threshold_ position_ flowers_].
    rewrite chosen_feature_name.
    assert (validate_flower
              (set_children (Some tl) (Some tr)
                 (mkNode (feature_name f) ((feature x f + feature y f) / 2)%Qc
                    (position_ n') (std_sort f (flowers_ n'))
                    (Some (new_Node (take (Z.to_nat idx) (std_sort f (flowers_ n')))
                                    (position_ n' +:+ "L")))
                    (Some (new_Node (drop (Z.to_nat idx) (std_sort f (flowers_ n')))
                                    (position_ n' +:+ "R"))))) fl
            = if decide (feature fl f < (feature x f + feature y f) / 2)%Qc
              then validate_flower tl fl else validate_flower tr fl) as ->.
    { by destruct f. }
    destruct (decide (feature fl f < (feature x f + feature y f) / 2)%Qc).
    + split_and!; [done|right; apply elem_of_app; by left|by exists labl].
    + split_and!; [done|right; apply elem_of_app; by right|by exists labr].
Qed.

Lemma count_correct_spec (t : Node) (v : list Flower) (P : Flower → Prop)
    `{!∀ fl, Decision (P fl)} :
  (∀ fl, validate_flower t fl = Ok (bool_decide (P fl))) →
  count_correct t v = Ok (size (filter P v)).
Proof.
  intros Hval. unfold count_correct.
  assert (∀ acc : Z,
    foldl (λ acc f,
             correct ← acc;
             ok ← validate_flower t f;
             Ok (if ok : bool then correct + 1 else correct)%Z) (Ok acc) v
    = Ok (acc + size (filter P v))%Z) as Hgen.
  { induction v as [|fl v IH]; intros acc; simpl.
    - f_equal. unfold size. simpl. lia.
    - rewrite Hval. simpl. rewrite filter_cons.
      case_bool_decide; rewrite decide_bool_decide; rewrite IH; f_equal;
        unfold size; simpl; case_bool_decide; try done; simpl; lia. }
  by rewrite Hgen.
Qed.


Lemma validate_flower_finished (fuel : nat) (max_depth : Z) (rnd : nat → rng)
    (n : Node) (k : nat) (t : Node) (k' : nat) (fl : Flower) :
  (∀ i, rng_ok (rnd i)) →
  build_tree fuel max_depth rnd n k = Ok (t, k') →
  is_leaf (classify_leaf t fl) ∧ classify_leaf t fl ∈ subnodes t
  ∧ ∃ lab, valid_class lab ∧ feature_ (classify_leaf t fl) = to_string lab
      ∧ validate_flower t fl = Ok (bool_decide (get_class fl = lab)).
Proof.
  intros Hrnd [HB|(Hnil & Hd & -> & ->)]%build_tree_Ok_cases.
  - by eapply validate_flower_Built.
  - destruct (make_leaf_eq (rnd k) n) as (a & b & c & Hc & ->). simpl.
    pose proof (find_best_valid a b c (rnd k) (Hrnd k)) as Hvalid.
    destruct (leaf_label_not_feature _ Hvalid) as (?&?&?&?).
    split_and!; [done|left|]. eexists. split_and!; [exact Hvalid|done|].
    rewrite !decide_False by done. f_equal.
    apply bool_decide_ext. split; [intros Heq; by apply to_string_inj|by intros ->].
Qed.

(** ** The claims about finished trees *)







(** C8: on the tree that [main] builds, [validate_flower] never fails: it
    follows the routing rule of [classify_leaf] (left when the value of the
    node's feature is strictly below the threshold, right otherwise) down
    to a leaf, and answers whether the label stored there is the class of
    the sample; the two numbers [main] reports as correct are the numbers
    of such samples in the training set and in the validation slice. *)
Theorem main_reports_accuracy (input : list Flower)
    (vset_begin vset_end depth : Z) (name : string) (rnd : nat → rng)
    (correctt sizet correctv sizev : Z) :
  (∀ i, rng_ok (rnd i)) →
  main input vset_begin vset_end depth name rnd
    = Ok (correctt, sizet, correctv, sizev) →
  let vflowers :=
    take (Z.to_nat (vset_end - vset_begin)) (drop (Z.to_nat vset_begin) input) in
  let tflowers :=
    take (Z.to_nat vset_begin) input ++ drop (Z.to_nat vset_end) input in
  ∃ ttree k,
    build_tree (S (length tflowers))
               (set_max_depth depth (new_Node tflowers name)) rnd
               (new_Node tflowers name) 0 = Ok (ttree, k)
    ∧ (∀ fl, is_leaf (classify_leaf ttree fl)
         ∧ classify_leaf ttree fl ∈ subnodes ttree
         ∧ validate_flower ttree fl = Ok (bool_decide (classified_right ttree fl)))
    ∧ correctt = size (filter (classified_right ttree) tflowers)
    ∧ sizet = size tflowers
    ∧ correctv = size (filter (classified_right ttree) vflowers)
    ∧ sizev = size vflowers.
Proof.
  intros Hrnd Hmain vflowers tflowers. unfold main in Hmain.
  case_decide; [|done]. fold vflowers tflowers in Hmain.
  apply bind_Ok in Hmain as ([ttree k] & Hb & Hmain).
  assert (∀ fl, is_leaf (classify_leaf ttree fl)
            ∧ classify_leaf ttree fl ∈ subnodes ttree
            ∧ validate_flower ttree fl = Ok (bool_decide (classified_right ttree fl)))
    as Hval.
  { intros fl.
    destruct (validate_flower_finished _ _ _ _ _ _ _ fl Hrnd Hb)
      as (Hleaf & Hin & lab & Hlab & Hfeat & Hv).
    split_and!; [done..|]. rewrite Hv. f_equal. apply bool_decide_ext.
    unfold classified_right. rewrite Hfeat.
    split; [by intros ->|intros Heq; symmetry; by apply to_string_inj]. }
  rewrite (count_correct_spec ttree tflowers (classified_right ttree)) in Hmain
    by apply Hval.
  simpl in Hmain.
  rewrite (count_correct_spec ttree vflowers (classified_right ttree)) in Hmain
    by apply Hval.
  simpl in Hmain. injection Hmain as <- <- <- <-.
  by exists ttree, k.
Qed.

(** C9: on a non-empty partition [build_tree] runs into no fault, and
    returns once the fuel covers the size of the partition: the first loop
    stays within the vector and is left only with two flowers or more,
    [max_gain] on two flowers or more reads within the vector, and [gain]
    on a split node divides by no zero, being [0] at once when a side is
    empty.  On an empty partition the first loop reads out of range unless
    the maximum depth is reached at once, and [max_gain] on a single flower
    reads out of range. *)
Theorem build_tree_in_bounds (fuel : nat) (max_depth : Z) (rnd : nat → rng)
    (n : Node) (k : nat) :
  flowers_ n ≠ [] →
  build_tree fuel max_depth rnd n k ≠ Fault
  ∧ (length (flowers_ n) ≤ fuel →
     ∃ t k', build_tree fuel max_depth rnd n k = Ok (t, k'))
  ∧ (∃ b, purity_loop (S (length (flowers_ n))) max_depth n 0 = Ok b
       ∧ (b = false → 2 ≤ length (flowers_ n)))
  ∧ (∀ f n', 2 ≤ length (flowers_ n') → ∃ g m, max_gain f n' = Ok (g, m))
  ∧ (∀ index n' m, split_node index n' = Ok m →
       ∃ g, gain m = Ok g
         ∧ ((index = 0 ∨ index = size (flowers_ n'))%Z → g = 0%Qc))
  ∧ (∀ n0, flowers_ n0 = [] → ¬ depth_reached max_depth n0 →
       build_tree (S fuel) max_depth rnd n0 k = Fault)
  ∧ (∀ f n1, length (flowers_ n1) = 1 → max_gain f n1 = Fault).
Proof.
  intros Hne. split_and!.
  - by apply build_tree_no_fault.
  - by apply build_tree_returns.
  - assert (0 < length (flowers_ n)) by (destruct (flowers_ n); [done|simpl; lia]).
    destruct (purity_loop_spec (S (length (flowers_ n))) max_depth n 0)
      as (b & Hb & _ & Hbf); [lia|lia|lia|]. by exists b.
  - intros f n' Hlen.
    destruct (max_gain_step f n') as (g & m & Hg & _); [unfold size; lia|]. eauto.
  - intros index n' m Hs.
    destruct (gain_split_node _ _ _ Hs) as (g & Hg & _ & Hz). eauto.
  - intros n0 Hnil Hd. by apply build_tree_empty.
  - intros f n1 Hlen. unfold max_gain.
    assert (length (flowers_ (sort_flowers_by f n1)) = 1) as Hlen'.
    { simpl. by rewrite std_sort_perm. }
    rewrite Hlen'. simpl.
    rewrite decide_False by (unfold size; rewrite std_sort_perm, Hlen; lia).
    simpl. unfold split_node. case_decide; [|done]. simpl.
    rewrite (vec_at_out_of_range _ 1).
    + destruct (vec_at_in_range (std_sort f (flowers_ n1)) (1 - 1)) as (x & -> & _);
        [|done].
      unfold size. rewrite std_sort_perm, Hlen. lia.
    + right. unfold size. rewrite std_sort_perm, Hlen. lia.
Qed.


(** ** The split search on three flowers *)

(** A vector that is already sorted, with no two flowers of the same
    value, is left as it is. *)
Lemma std_sort_fixed (f : Feature) (v : list Flower) :
  sorted_by f v →
  (∀ x y, x ∈ v → y ∈ v → feature x f = feature y f → x = y) →
  std_sort f v = v.
Proof.
  intros Hs Hinj.
  apply (StronglySorted_unique_strong (λ x y, feature x f ≤ feature y f)%Qc).
  - intros x y Hx Hy H1 H2. rewrite std_sort_perm in Hx.
    apply Hinj; [done..|]. by apply Qcle_antisym.
  - apply sorted_by_strongly, std_sort_sorted.
  - by apply sorted_by_strongly.
  - apply std_sort_perm.
Qed.

Lemma skipped_example_sorted : std_sort SL skipped_example = skipped_example.
Proof.
  apply std_sort_fixed.
  - unfold sorted_by, skipped_example. repeat constructor; by vm_compute.
  - intros x y Hx Hy. unfold skipped_example in *.
    repeat (apply elem_of_cons in Hx as [->|Hx]);
      [| | |by apply elem_of_nil in Hx];
      repeat (apply elem_of_cons in Hy as [->|Hy]);
      try (by apply elem_of_nil in Hy); try done;
      intros Heq; by vm_compute in Heq.
Qed.

Lemma I_pure :
  log2 (Q2Qc 1) = Q2Qc 0 →
  I (Q2Qc 1) (Q2Qc 0) (Q2Qc 0) = Q2Qc 0 ∧ I (Q2Qc 0) (Q2Qc 1) (Q2Qc 0) = Q2Qc 0.
Proof.
  intros log2_1.
  unfold I, linlog. rewrite !(decide_True (P:=Q2Qc 0 = Q2Qc 0)) by done.
  rewrite !(decide_False (P:=Q2Qc 1 = Q2Qc 0)) by done.
  rewrite log2_1. split; ring.
Qed.

Lemma I_halves :
  log2 (Q2Qc (1 # 2)) = Q2Qc (-1) →
  I (Q2Qc (1 # 2)) (Q2Qc (1 # 2)) (Q2Qc 0) = Q2Qc 1.
Proof.
  intros log2_half.
  unfold I, linlog. rewrite !(decide_True (P:=Q2Qc 0 = Q2Qc 0)) by done.
  rewrite !(decide_False (P:=Q2Qc (1 # 2) = Q2Qc 0)) by done.
  rewrite log2_half. apply Qc_is_canon. reflexivity.
Qed.

Ltac qc_const a b q :=
  replace (Qc_of_Z a / Qc_of_Z b)%Qc with (Q2Qc q)
    by (apply Qc_is_canon; reflexivity).

Lemma gain_at_skipped_1 :
  log2 (Q2Qc 1) = Q2Qc 0 → log2 (Q2Qc (1 # 2)) = Q2Qc (-1) →
  gain_at skipped_example 1
  = Ok (I (Q2Qc (2 # 3)) (Q2Qc (1 # 3)) (Q2Qc 0) - Q2Qc (2 # 3))%Qc.
Proof.
  intros log2_1 log2_half.
  unfold gain_at, split_node. rewrite decide_True by (by vm_compute).
  cbn [mbind res_bind]. unfold gain.
  cbn [left_ right_ set_children deref mbind res_bind].
  unfold count_class. cbn [flowers_ set_children new_Node].
  replace (count_flowers skipped_example) with (2, 1, 0)%Z by (by vm_compute).
  replace (count_flowers (take (Z.to_nat 1) skipped_example))
    with (1, 0, 0)%Z by (by vm_compute).
  replace (count_flowers (drop (Z.to_nat 1) skipped_example))
    with (1, 1, 0)%Z by (by vm_compute).
  cbn -[I Qcdiv Qcmult Qcminus Qc_of_Z].
  rewrite decide_False by lia. unfold I_over. rewrite !fdiv_Ok by lia.
  cbn [mbind res_bind].
  qc_const 2%Z (2 + 1 + 0)%Z (2 # 3). qc_const 1%Z (2 + 1 + 0)%Z (1 # 3).
  qc_const 0%Z (2 + 1 + 0)%Z 0%Q. qc_const (1 + 0 + 0)%Z (2 + 1 + 0)%Z (1 # 3).
  qc_const (1 + 1 + 0)%Z (2 + 1 + 0)%Z (2 # 3). qc_const 1%Z (1 + 0 + 0)%Z 1%Q.
  qc_const 0%Z (1 + 0 + 0)%Z 0%Q. qc_const 1%Z (1 + 1 + 0)%Z (1 # 2).
  qc_const 0%Z (1 + 1 + 0)%Z 0%Q.
  destruct (I_pure log2_1) as [-> _]. rewrite (I_halves log2_half). f_equal. ring.
Qed.

Lemma gain_at_skipped_2 :
  log2 (Q2Qc 1) = Q2Qc 0 →
  gain_at skipped_example 2 = Ok (I (Q2Qc (2 # 3)) (Q2Qc (1 # 3)) (Q2Qc 0)).
Proof.
  intros log2_1.
  unfold gain_at, split_node. rewrite decide_True by (by vm_compute).
  cbn [mbind res_bind]. unfold gain.
  cbn [left_ right_ set_children deref mbind res_bind].
  unfold count_class. cbn [flowers_ set_children new_Node].
  replace (count_flowers skipped_example) with (2, 1, 0)%Z by (by vm_compute).
  replace (count_flowers (take (Z.to_nat 2) skipped_example))
    with (2, 0, 0)%Z by (by vm_compute).
  replace (count_flowers (drop (Z.to_nat 2) skipped_example))
    with (0, 1, 0)%Z by (by vm_compute).
  cbn -[I Qcdiv Qcmult Qcminus Qc_of_Z].
  rewrite decide_False by lia. unfold I_over. rewrite !fdiv_Ok by lia.
  cbn [mbind res_bind].
  qc_const 2%Z (2 + 1 + 0)%Z (2 # 3). qc_const 1%Z (2 + 1 + 0)%Z (1 # 3).
  qc_const 0%Z (2 + 1 + 0)%Z 0%Q. qc_const 2%Z (2 + 0 + 0)%Z 1%Q.
  qc_const 0%Z (2 + 0 + 0)%Z 0%Q. qc_const 0%Z (0 + 1 + 0)%Z 0%Q.
  qc_const 1%Z (0 + 1 + 0)%Z 1%Q.
  destruct (I_pure log2_1) as [-> ->]. f_equal. ring.
Qed.

Lemma max_gain_loop_step (fuel : nat) (f : Feature) (n : Node) (sp : Z)
    (cur : Qc) (idx : Z) :
  (sp < size (flowers_ n))%Z →
  max_gain_loop (S fuel) f n sp cur idx =
    (sp' ← skip_equal (length (flowers_ n)) f (flowers_ n) sp;
     n' ← split_node sp' n;
     candidate ← gain n';
     max_gain_loop fuel f n' (sp' + 1 + 1)
       (if decide (cur < candidate)%Qc then candidate else cur)
       (if decide (cur < candidate)%Qc then sp' else idx)).
Proof.
  intros Hlt. cbn [max_gain_loop]. rewrite decide_True by done.
  destruct (skip_equal _ _ _ _) as [sp'| |]; [|done..]. cbn [mbind res_bind].
  destruct (split_node _ _) as [n'| |]; [|done..]. cbn [mbind res_bind].
  destruct (gain _) as [g| |]; [|done..]. cbn [mbind res_bind].
  by destruct (decide _).
Qed.

Lemma max_gain_loop_done (fuel : nat) (f : Feature) (n : Node) (sp : Z)
    (cur : Qc) (idx : Z) :
  ¬ (sp < size (flowers_ n))%Z →
  max_gain_loop fuel f n sp cur idx = Ok (n, cur, idx).
Proof. intros Hge. destruct fuel; simpl; by rewrite decide_False. Qed.

Lemma max_gain_skipped :
  log2 (Q2Qc 1) = Q2Qc 0 → log2 (Q2Qc (1 # 2)) = Q2Qc (-1) →
  ∃ m, max_gain SL (new_Node skipped_example "")
       = Ok (if decide (0 < I (Q2Qc (2 # 3)) (Q2Qc (1 # 3)) (Q2Qc 0) - Q2Qc (2 # 3))%Qc
             then (I (Q2Qc (2 # 3)) (Q2Qc (1 # 3)) (Q2Qc 0) - Q2Qc (2 # 3))%Qc
             else 0%Qc, m)
    ∧ flowers_ <$> left_ m = Some [flower 1 0 0 0 0].
Proof.
  intros log2_1 log2_half.
  set (n0 := set_flowers skipped_example (new_Node skipped_example "")).
  assert (sort_flowers_by SL (new_Node skipped_example "") = n0) as Hn0.
  { unfold sort_flowers_by. cbn [flowers_ new_Node].
    by rewrite skipped_example_sorted. }
  set (n1 := set_children
         (Some (new_Node (take (Z.to_nat 1) skipped_example) ("" +:+ "L")))
         (Some (new_Node (drop (Z.to_nat 1) skipped_example) ("" +:+ "R"))) n0).
  assert (split_node 1 n0 = Ok n1) as Hs by (by vm_compute).
  destruct (gain_split_node _ _ _ Hs) as (g & Hg & Hat & _).
  change (flowers_ n0) with skipped_example in Hat.
  rewrite gain_at_skipped_1 in Hat by done. injection Hat as <-.
  set (X := (I (Q2Qc (2 # 3)) (Q2Qc (1 # 3)) (Q2Qc 0) - Q2Qc (2 # 3))%Qc) in *.
  assert (max_gain_loop 3 SL n0 1 0%Qc 1
          = Ok (n1, if decide (0 < X)%Qc then X else 0%Qc, 1%Z)) as Hloop.
  { rewrite max_gain_loop_step by (by vm_compute).
    change (flowers_ n0) with skipped_example.
    replace (skip_equal (length skipped_example) SL skipped_example 1)
      with (Ok 1%Z : res Z) by (by vm_compute).
    rewrite bind_Ok_l, Hs, bind_Ok_l, Hg, bind_Ok_l.
    rewrite max_gain_loop_done by (by vm_compute).
    by destruct (decide (0 < X)%Qc). }
  unfold max_gain. cbv zeta. rewrite Hn0.
  change (length (flowers_ n0)) with 3. rewrite Hloop, bind_Ok_l.
  cbv beta iota.
  assert (split_node 1 n1 = Ok n1) as -> by (by vm_compute).
  rewrite bind_Ok_l.
  replace (vec_at (flowers_ n1) (1 - 1)) with (Ok (flower 1 0 0 0 0))
    by (by vm_compute).
  replace (vec_at (flowers_ n1) 1) with (Ok (flower 2 0 0 0 0))
    by (by vm_compute).
  rewrite !bind_Ok_l. eexists. split; [reflexivity|done].
Qed.

(** C1, at the failing input: sepal lengths 1, 2, 3 with classes 0, 0, 1.
    Both indices 1 and 2 are candidates of the specification, and the
    greatest gain is at index 2; [max_gain] evaluates index 1 only, commits
    the split there and reports a smaller gain. *)
Theorem max_gain_skips_candidate :
  log2 (Q2Qc 1) = Q2Qc 0 → log2 (Q2Qc (1 # 2)) = Q2Qc (-1) →
  (0 < I (Q2Qc (2 # 3)) (Q2Qc (1 # 3)) (Q2Qc 0))%Qc →
  spec_candidates SL (std_sort SL skipped_example) = [1; 2]%Z
  ∧ ∃ g g' m,
      max_gain SL (new_Node skipped_example "") = Ok (g, m)
      ∧ flowers_ <$> left_ m = Some [flower 1 0 0 0 0]
      ∧ spec_max_gain SL (new_Node skipped_example "") = Ok g'
      ∧ gain_at (std_sort SL skipped_example) 2 = Ok g'
      ∧ (g < g')%Qc.
Proof.
  intros log2_1 log2_half Hpos. rewrite skipped_example_sorted.
  assert (spec_candidates SL skipped_example = [1; 2]%Z) as Hcand by (by vm_compute).
  split; [done|].
  destruct (max_gain_skipped log2_1 log2_half) as (m & Hm & Hl).
  set (X := I (Q2Qc (2 # 3)) (Q2Qc (1 # 3)) (Q2Qc 0)) in *.
  assert (X - Q2Qc (2 # 3) < X)%Qc as Hless.
  { unfold Qclt, Qcminus, Qcplus, Qcopp. simpl. rewrite !Qred_correct. lra. }
  exists (if decide (0 < X - Q2Qc (2 # 3))%Qc then (X - Q2Qc (2 # 3))%Qc else 0%Qc), X, m.
  split; [exact Hm|]. split; [exact Hl|]. split; [|split].
  - unfold spec_max_gain. cbv zeta.
    change (flowers_ (new_Node skipped_example "")) with skipped_example.
    rewrite skipped_example_sorted, Hcand.
    unfold foldl. rewrite bind_Ok_l, gain_at_skipped_1, bind_Ok_l by done.
    rewrite bind_Ok_l, gain_at_skipped_2, bind_Ok_l by done.
    cbv beta. fold X. f_equal. destruct (decide (0 < X - Q2Qc (2 # 3))%Qc); by rewrite decide_True.
  - by apply gain_at_skipped_2.
  - by destruct (decide (0 < X - Q2Qc (2 # 3))%Qc).
Qed.


(** * Further properties of the code *)

(** ** Splitting a node *)

(** X1: [split_node] accepts exactly the indices from [0] to the size of
    the vector; it then gives the node two fresh leaves one step deeper,
    the left one with the first [index] flowers and the right one with the
    rest, in order, and leaves the node's own flowers, position, feature
    and threshold alone.  Any other index is a fault. *)
Theorem split_node_partition (index : Z) (n : Node) :
  ((0 ≤ index ≤ size (flowers_ n))%Z →
   ∃ m l r,
     split_node index n = Ok m
     ∧ left_ m = Some l ∧ right_ m = Some r
     ∧ flowers_ l ++ flowers_ r = flowers_ n
     ∧ size (flowers_ l) = index
     ∧ position_ l = position_ n +:+ "L" ∧ position_ r = position_ n +:+ "R"
     ∧ is_leaf l ∧ is_leaf r
     ∧ flowers_ m = flowers_ n ∧ position_ m = position_ n
     ∧ feature_ m = feature_ n ∧ threshold_ m = threshold_ n)
  ∧ (¬ (0 ≤ index ≤ size (flowers_ n))%Z → split_node index n = Fault).
Proof using Type.
  split; intros Hi; unfold split_node.
  - rewrite decide_True by done. eexists _, _, _.
    split_and!; try reflexivity; try (split; reflexivity); simpl.
    + apply take_drop.
    + unfold size in *. rewrite length_take. lia.
  - by rewrite decide_False.
Qed.

(** X2: after [split_node] the class counts of the node are the sums of
    the class counts of its two children, so that in [gain] the total is
    the sum of the two side totals, as the note on line 105 says. *)
Theorem split_node_counts (index : Z) (n m l r : Node)
    (a b c a1 b1 c1 a2 b2 c2 : Z) :
  split_node index n = Ok m → left_ m = Some l → right_ m = Some r →
  count_class m = (a, b, c) → count_class l = (a1, b1, c1) →
  count_class r = (a2, b2, c2) →
  (a = a1 + a2 ∧ b = b1 + b2 ∧ c = c1 + c2
   ∧ a + b + c = (a1 + b1 + c1) + (a2 + b2 + c2)
   ∧ 0 ≤ a1 ∧ 0 ≤ b1 ∧ 0 ≤ c1 ∧ 0 ≤ a2 ∧ 0 ≤ b2 ∧ 0 ≤ c2)%Z.
Proof using Type.
  intros [Hi ->]%split_node_Ok [= <-] [= <-]. unfold count_class. simpl.
  rewrite <-(take_drop (Z.to_nat index) (flowers_ n)) at 1.
  rewrite !count_flowers_eq, !class_size_app.
  intros [= <- <- <-] [= <- <- <-] [= <- <- <-].
  pose proof (class_size_nonneg setosa (take (Z.to_nat index) (flowers_ n))).
  pose proof (class_size_nonneg versicolor (take (Z.to_nat index) (flowers_ n))).
  pose proof (class_size_nonneg virginica (take (Z.to_nat index) (flowers_ n))).
  pose proof (class_size_nonneg setosa (drop (Z.to_nat index) (flowers_ n))).
  pose proof (class_size_nonneg versicolor (drop (Z.to_nat index) (flowers_ n))).
  pose proof (class_size_nonneg virginica (drop (Z.to_nat index) (flowers_ n))).
  lia.
Qed.


(** ** More on the split search *)

Lemma max_gain_loop_frame (fuel : nat) (f : Feature) (n : Node) (sp : Z)
    (cur : Qc) (idx : Z) (n' : Node) (cur' : Qc) (idx' : Z) :
  max_gain_loop fuel f n sp cur idx = Ok (n', cur', idx') →
  flowers_ n' = flowers_ n ∧ position_ n' = position_ n
  ∧ (cur ≤ cur')%Qc ∧ (cur' = cur → idx' = idx).
Proof using Type.
  revert n sp cur idx.
  induction fuel as [|fuel IH]; intros n sp cur idx; simpl.
  { case_decide; [done|]. intros [= <- <- <-]. by split_and!. }
  case_decide; [|intros [= <- <- <-]; by split_and!].
  intros (sp' & _ & (n1 & Hs & (g & _ & Hrec)%bind_Ok)%bind_Ok)%bind_Ok.
  apply split_node_Ok in Hs as [_ ->].
  destruct (decide (cur < g)%Qc) as [Hlt|Hge];
    apply IH in Hrec as (Hfl & Hpo & Hle & Hidx); simpl in *;
    split_and!; try done.
  - apply Qclt_le_weak. by eapply Qclt_le_trans.
  - intros ->. by destruct (Qclt_not_le _ _ Hlt).
Qed.



(** X3: what [max_gain] finds depends on the flowers of the node as a
    multiset only: on two arrangements of the same flowers it reports the
    same gain and leaves the same threshold and the same number of flowers
    on the left, however [std::sort] orders flowers of equal value.  In
    particular the second call of [build_tree] for the chosen feature
    finds again what the first call found. *)
Theorem max_gain_order_independent (f : Feature) (n1 n2 : Node)
    (g1 g2 : Qc) (m1 m2 : Node) :
  flowers_ n1 ≡ₚ flowers_ n2 →
  max_gain f n1 = Ok (g1, m1) → max_gain f n2 = Ok (g2, m2) →
  g1 = g2 ∧ threshold_ m1 = threshold_ m2 ∧ feature_ m1 = feature_ m2
  ∧ ∃ l1 l2, left_ m1 = Some l1 ∧ left_ m2 = Some l2
      ∧ length (flowers_ l1) = length (flowers_ l2).
Proof.
  intros Hp H1 H2.
  pose proof (sorted_by_values f _ _
    (std_sort_sorted f (flowers_ n1)) (std_sort_sorted f (flowers_ n2))
    ltac:(by rewrite !std_sort_perm)) as Hv.
  unfold max_gain in H1, H2.
  apply bind_Ok in H1 as ([[n1' c1] i1] & Hl1 & H1).
  apply bind_Ok in H2 as ([[n2' c2] i2] & Hl2 & H2).
  replace (length (flowers_ (sort_flowers_by f n2)))
    with (length (flowers_ (sort_flowers_by f n1))) in Hl2.
  2:{ simpl. by rewrite !std_sort_perm, Hp. }
  destruct (max_gain_loop_perm _ f (sort_flowers_by f n1) (sort_flowers_by f n2)
    1 0%Qc 1 _ _
    (std_sort_sorted f (flowers_ n1)) (std_sort_sorted f (flowers_ n2))
    ltac:(simpl; by rewrite !std_sort_perm) ltac:(lia) Hl1 Hl2) as [Hc Hi].
  simpl in Hc, Hi. subst c2 i2.
  apply max_gain_loop_frame in Hl1 as (Hf1 & _). simpl in Hf1.
  apply max_gain_loop_frame in Hl2 as (Hf2 & _). simpl in Hf2.
  apply bind_Ok in H1 as (s1 & [_ ->]%split_node_Ok & H1).
  apply bind_Ok in H1 as (x1 & [_ Hx1]%vec_at_Ok & H1).
  apply bind_Ok in H1 as (y1 & [_ Hy1]%vec_at_Ok & H1).
  apply bind_Ok in H2 as (s2 & [_ ->]%split_node_Ok & H2).
  apply bind_Ok in H2 as (x2 & [_ Hx2]%vec_at_Ok & H2).
  apply bind_Ok in H2 as (y2 & [_ Hy2]%vec_at_Ok & H2).
  injection H1 as <- <-. injection H2 as <- <-. simpl in *.
  rewrite Hf1 in Hx1, Hy1. rewrite Hf2 in Hx2, Hy2.
  pose proof (f_equal (.!! Z.to_nat (i1 - 1)) Hv) as Ex.
  pose proof (f_equal (.!! Z.to_nat i1) Hv) as Ey. simpl in Ex, Ey.
  rewrite !list_lookup_fmap in Ex, Ey.
  rewrite Hx1, Hx2 in Ex. rewrite Hy1, Hy2 in Ey. simpl in Ex, Ey.
  injection Ex as Ex. injection Ey as Ey.
  split_and!; [done|by rewrite Ex, Ey|done|].
  eexists _, _. split_and!; [done..|]. simpl.
  rewrite Hf1, Hf2, !length_take, !std_sort_perm. by rewrite Hp.
Qed.







(** ** Leaves *)

Lemma find_best_greatest (a b c : Z) (g : rng) :
  rng_ok g →
  valid_class (find_best a b c g)
  ∧ class_count a b c (find_best a b c g) = ((a `max` b) `max` c)%Z.
Proof using Type.
  intros [Hd2 Hd1].
  assert (d2 g = 0 ∨ d2 g = 1 ∨ d2 g = 2)%Z as Hd2' by lia.
  assert (d1 g = 0 ∨ d1 g = 1)%Z as Hd1' by lia.
  unfold find_best, valid_class, class_count, setosa, versicolor, virginica.
  repeat case_decide; repeat case_bool_decide; simpl in *; lia.
Qed.

Lemma find_best_pure (n : Z) (g : rng) :
  (0 < n)%Z →
  find_best n 0 0 g = setosa ∧ find_best 0 n 0 g = versicolor
  ∧ find_best 0 0 n g = virginica.
Proof using Type.
  intros Hn. unfold find_best, setosa, versicolor, virginica.
  split_and!; repeat case_decide; repeat case_bool_decide; simpl in *; lia.
Qed.

Lemma class_size_pure (c : Z) (v : list Flower) :
  (∀ x, x ∈ v → get_class x = c) →
  class_size c v = size v ∧ ∀ c', c' ≠ c → class_size c' v = 0%Z.
Proof using Type.
  intros Hall. unfold class_size. split.
  - rewrite filter_all; [done|]. intros x Hx. by apply Hall.
  - intros c' Hne. rewrite filter_none; [done|].
    intros x Hx Hc. apply Hne. by rewrite <-Hc, (Hall x Hx).
Qed.

Lemma count_flowers_pure (c : Z) (v : list Flower) (g : rng) :
  v ≠ [] → valid_class c → (∀ x, x ∈ v → get_class x = c) →
  ∃ a b d, count_flowers v = (a, b, d) ∧ find_best a b d g = c.
Proof using Type.
  intros Hne Hvalid Hall. rewrite count_flowers_eq.
  destruct (class_size_pure c v Hall) as [Hc Hother].
  assert (0 < size v)%Z as Hpos.
  { unfold size. destruct v; [done|simpl; lia]. }
  destruct (find_best_pure (size v) g Hpos) as (F0 & F1 & F2).
  eexists _, _, _. split; [done|].
  unfold valid_class, setosa, versicolor, virginica in *.
  destruct Hvalid as [->|[->| ->]]; rewrite Hc, !Hother by done; done.
Qed.

(** X6: [make_leaf] turns a node into a leaf that keeps the flowers and
    the position, with threshold [0]; with draws in range the label is one
    of the three classes, one whose count among the flowers of the node is
    the greatest, and it is never read as the name of a feature. *)
Theorem make_leaf_majority (g : rng) (n : Node) (a b c : Z) :
  rng_ok g → count_class n = (a, b, c) →
  is_leaf (make_leaf g n)
  ∧ flowers_ (make_leaf g n) = flowers_ n
  ∧ position_ (make_leaf g n) = position_ n
  ∧ threshold_ (make_leaf g n) = 0%Qc
  ∧ chosen_feature (feature_ (make_leaf g n)) = None
  ∧ ∃ r, feature_ (make_leaf g n) = to_string r ∧ valid_class r
      ∧ class_count a b c r = ((a `max` b) `max` c)%Z.
Proof using Type.
  intros Hg Hc. unfold make_leaf. rewrite Hc. simpl.
  destruct (find_best_greatest a b c g Hg) as [Hvalid Hmax].
  split_and!; try done.
  - destruct (leaf_label_not_feature _ Hvalid) as (?&?&?&?).
    unfold chosen_feature. by rewrite !decide_False.
  - by eexists.
Qed.

(** ** More on building *)

(** X7: a node whose position is as long as the effective maximum depth
    becomes a leaf at once, whatever its flowers, even none. *)
Theorem build_tree_at_max_depth (fuel : nat) (max_depth : Z)
    (rnd : nat → rng) (n : Node) (k : nat) :
  depth_reached max_depth n →
  build_tree (S fuel) max_depth rnd n k = Ok (make_leaf (rnd k) n, S k).
Proof using Type.
  intros Hd. destruct (decide (flowers_ n = [])) as [Hnil|Hne].
  - by apply build_tree_empty.
  - assert (0 < length (flowers_ n)) by (destruct (flowers_ n); [done|simpl; lia]).
    destruct (purity_loop_spec (S (length (flowers_ n))) max_depth n 0)
      as (b & Hb & Hbt & _); [lia|lia|lia|].
    change (Z.of_nat 0) with 0%Z in Hb.
    assert (b = true) as -> by (apply Hbt; by right).
    cbn [build_tree]. by rewrite Hb.
Qed.

(** X8: a non-empty node whose flowers all have the same valid class
    becomes a leaf labelled with that class, without a look at the
    features and whatever the generator draws. *)
Theorem build_tree_pure_node (fuel : nat) (max_depth : Z) (rnd : nat → rng)
    (n : Node) (k : nat) (c : Z) :
  flowers_ n ≠ [] → valid_class c →
  (∀ x, x ∈ flowers_ n → get_class x = c) →
  build_tree (S fuel) max_depth rnd n k = Ok (make_leaf (rnd k) n, S k)
  ∧ feature_ (make_leaf (rnd k) n) = to_string c.
Proof using Type.
  intros Hne Hvalid Hall.
  assert (0 < length (flowers_ n)) by (destruct (flowers_ n); [done|simpl; lia]).
  destruct (purity_loop_spec (S (length (flowers_ n))) max_depth n 0)
    as (b & Hb & Hbt & _); [lia|lia|lia|].
  change (Z.of_nat 0) with 0%Z in Hb.
  assert (b = true) as ->.
  { apply Hbt. left. intros x y Hx Hy. by rewrite (Hall x Hx), (Hall y Hy). }
  split; [cbn [build_tree]; by rewrite Hb|].
  destruct (count_flowers_pure c (flowers_ n) (rnd k) Hne Hvalid Hall)
    as (a & b' & d & Hc & Hbest).
  unfold make_leaf, count_class. rewrite Hc. simpl. by rewrite Hbest.
Qed.


Lemma leaves_make_leaf (g : rng) (n : Node) : leaves (make_leaf g n) = [make_leaf g n].
Proof using Type.
  destruct (make_leaf_eq g n) as (a & b & c & _ & ->). done.
Qed.

Lemma leaves_children (m tl tr : Node) :
  leaves (set_children (Some tl) (Some tr) m) = leaves tl ++ leaves tr.
Proof using Type. done. Qed.

(** X9: [build_tree] seeds one generator for each leaf it makes, the
    leaves taken from left to right: the count of generators grows by the
    number of leaves, and the label of the [i]-th leaf is what [find_best]
    returns on the counts of that leaf with the [i]-th generator. *)
Theorem build_tree_generators (fuel : nat) (max_depth : Z) (rnd : nat → rng)
    (n : Node) (k : nat) (t : Node) (k' : nat) :
  build_tree fuel max_depth rnd n k = Ok (t, k') →
  k' = k + length (leaves t)
  ∧ ∀ i lf, leaves t !! i = Some lf →
      is_leaf lf
      ∧ ∃ a b c, count_class lf = (a, b, c)
          ∧ feature_ lf = to_string (find_best a b c (rnd (k + i))).
Proof.
  assert (∀ k n, k + 1 = k + length (leaves (make_leaf (rnd k) n))
    ∧ ∀ i lf, leaves (make_leaf (rnd k) n) !! i = Some lf →
        is_leaf lf
        ∧ ∃ a b c, count_class lf = (a, b, c)
            ∧ feature_ lf = to_string (find_best a b c (rnd (k + i)))) as Hleaf.
  { intros k0 n0. rewrite leaves_make_leaf. split; [done|].
    intros i lf Hi. apply list_lookup_singleton_Some in Hi as [-> <-].
    destruct (make_leaf_eq (rnd k0) n0) as (a & b & c & Hc & ->).
    split; [done|]. exists a, b, c. by rewrite Nat.add_0_r. }
  intros [HB|(_ & _ & -> & ->)]%build_tree_Ok_cases.
  2:{ replace (S k) with (k + 1) by lia. apply Hleaf. }
  induction HB as [n k n' Hne Hlf Hp Hpos
                  |n k f n' g m l r tl k1 tr k2 Hnl Hlen Hfb Hp Hpos Hg Eg Hgpos
                   Hl Hr Hbl IHl Hbr IHr].
  - replace (S k) with (k + 1) by lia. apply Hleaf.
  - destruct IHl as [-> IHl]. destruct IHr as [-> IHr].
    rewrite leaves_children, length_app. split; [lia|].
    intros i lf [Hi|[Hge Hi]]%lookup_app_Some; [by apply IHl|].
    apply IHr in Hi.
    by replace (k + length (leaves tl) + (i - length (leaves tl))) with (k + i)
      in Hi by lia.
Qed.

(** X10: the leaves of the finished tree hold the flowers of the node
    between them: put end to end, their vectors are a rearrangement of the
    vector the node started with. *)
Theorem build_tree_leaves_partition (fuel : nat) (max_depth : Z)
    (rnd : nat → rng) (n : Node) (k : nat) (t : Node) (k' : nat) :
  build_tree fuel max_depth rnd n k = Ok (t, k') →
  concat (flowers_ <$> leaves t) ≡ₚ flowers_ n.
Proof.
  intros [HB|(_ & _ & -> & ->)]%build_tree_Ok_cases.
  2:{ rewrite leaves_make_leaf.
      destruct (make_leaf_eq (rnd k) n) as (a & b & c & _ & ->). simpl.
      by rewrite app_nil_r. }
  induction HB as [n k n' Hne Hlf Hp Hpos
                  |n k f n' g m l r tl k1 tr k2 Hnl Hlen Hfb Hp Hpos Hg Eg Hgpos
                   Hl Hr Hbl IHl Hbr IHr].
  - rewrite leaves_make_leaf.
    destruct (make_leaf_eq (rnd k) n') as (a & b & c & _ & ->). simpl.
    by rewrite app_nil_r.
  - rewrite leaves_children, fmap_app, concat_app, IHl, IHr.
    destruct (max_gain_spec f n') as (g' & idx & x & y & Hg' & _).
    { unfold size. rewrite Hp. lia. }
    rewrite Hg in Hg'. injection Hg' as _ ->. simpl in Hl, Hr.
    injection Hl as <-. injection Hr as <-. simpl.
    by rewrite take_drop, std_sort_perm.
Qed.


(** ** Routing the training flowers *)






(** ** The program as a whole *)

Lemma set_max_depth_reached (depth : Z) (n : Node) :
  (- 2 ^ 31 ≤ depth < 2 ^ 31)%Z →
  (Z.of_nat (String.length (position_ n)) < 2 ^ 31)%Z →
  depth_reached (set_max_depth depth n) n ↔ depth = 0%Z.
Proof using Type.
  intros Hd Hlen. unfold depth_reached, set_max_depth, to_int, to_size_t.
  change (2 ^ 64)%Z with 18446744073709551616%Z in *.
  change (2 ^ 32)%Z with 4294967296%Z in *.
  change (2 ^ 31)%Z with 2147483648%Z in *.
  pose proof (Nat2Z.is_nonneg (String.length (position_ n))) as Hpos.
  generalize dependent (Z.of_nat (String.length (position_ n))).
  intros len Hlen Hpos.
  assert ((depth `mod` 18446744073709551616 + len + 2147483648) `mod` 4294967296
          = (depth + len + 2147483648) `mod` 4294967296)%Z as ->.
  { assert (depth `mod` 18446744073709551616 = depth
            ∨ depth `mod` 18446744073709551616 = depth + 4294967296 * 4294967296)%Z
      as [->| ->]; [Z.to_euclidean_division_equations; lia|done|].
    replace (depth + 4294967296 * 4294967296 + len + 2147483648)%Z
      with (depth + len + 2147483648 + 4294967296 * 4294967296)%Z by lia.
    by rewrite Z_mod_plus_full. }
  assert (∀ z m, (0 < m)%Z → (- m ≤ z < m)%Z →
            (z `mod` m = z ∧ 0 ≤ z ∨ z `mod` m = z + m ∧ z < 0)%Z) as Hmod.
  { intros z m Hm Hz. destruct (decide (0 ≤ z)%Z).
    - left. split; [apply Z.mod_small|]; lia.
    - right. split; [|lia]. symmetry. apply (Z.mod_unique_pos _ _ (-1)); lia. }
  assert (∃ y, (depth + len + 2147483648) `mod` 4294967296 - 2147483648 = y
               ∧ (y = depth + len ∨ y = depth + len - 4294967296)
               ∧ - 2147483648 ≤ y < 2147483648)%Z as (y & -> & Hy & Hrange).
  { eexists. split; [done|].
    pose proof (Z.mod_pos_bound (depth + len + 2147483648) 4294967296).
    destruct (decide (depth + len + 2147483648 < 4294967296)%Z).
    - rewrite Z.mod_small by lia. lia.
    - rewrite <-(Z.mod_unique_pos (depth + len + 2147483648) 4294967296 1
                 (depth + len + 2147483648 - 4294967296)) by lia. lia. }
  destruct (Hmod y 18446744073709551616%Z) as [[-> ?]|[-> ?]]; lia.
Qed.

(** X13: [main] returns whenever the validation slice lies within the
    input and leaves a flower to train on: the two totals it reports are
    the sizes of the two sets, and each number of correct answers lies
    between zero and its total. *)
Theorem main_returns (input : list Flower) (vset_begin vset_end depth : Z)
    (name : string) (rnd : nat → rng) :
  (∀ i, rng_ok (rnd i)) →
  (0 ≤ vset_begin ∧ vset_begin ≤ vset_end ∧ vset_end ≤ size input)%Z →
  (vset_end - vset_begin < size input)%Z →
  ∃ correctt correctv,
    main input vset_begin vset_end depth name rnd
      = Ok (correctt, size input - (vset_end - vset_begin),
            correctv, vset_end - vset_begin)%Z
    ∧ (0 ≤ correctt ≤ size input - (vset_end - vset_begin))%Z
    ∧ (0 ≤ correctv ≤ vset_end - vset_begin)%Z.
Proof.
  intros Hrnd Hslice Hleft. unfold main. rewrite decide_True by done.
  set (vflowers :=
    take (Z.to_nat (vset_end - vset_begin)) (drop (Z.to_nat vset_begin) input)).
  set (tflowers :=
    take (Z.to_nat vset_begin) input ++ drop (Z.to_nat vset_end) input).
  assert (size tflowers = size input - (vset_end - vset_begin))%Z as Hst.
  { unfold size, tflowers in *. rewrite length_app, length_take, length_drop. lia. }
  assert (size vflowers = vset_end - vset_begin)%Z as Hsv.
  { unfold size, vflowers in *. rewrite length_take, length_drop. lia. }
  destruct (build_tree_returns (S (length tflowers))
              (set_max_depth depth (new_Node tflowers name)) rnd
              (new_Node tflowers name) 0) as (ttree & k & Hb).
  { simpl. intros Hnil. rewrite Hnil in Hst. unfold size in *. simpl in Hst. lia. }
  { simpl. lia. }
  rewrite Hb, bind_Ok_l. cbv beta iota.
  assert (∀ fl, validate_flower ttree fl
                = Ok (bool_decide (classified_right ttree fl))) as Hval.
  { intros fl.
    destruct (validate_flower_finished _ _ _ _ _ _ _ fl Hrnd Hb)
      as (_ & _ & lab & Hlab & Hfeat & ->).
    f_equal. apply bool_decide_ext. unfold classified_right. rewrite Hfeat.
    split; [by intros ->|intros Heq; symmetry; by apply to_string_inj]. }
  rewrite (count_correct_spec ttree tflowers (classified_right ttree)) by apply Hval.
  rewrite bind_Ok_l.
  rewrite (count_correct_spec ttree vflowers (classified_right ttree)) by apply Hval.
  rewrite bind_Ok_l, Hst, Hsv.
  eexists _, _. split; [done|].
  pose proof (length_filter (classified_right ttree) tflowers).
  pose proof (length_filter (classified_right ttree) vflowers).
  unfold size in *. lia.
Qed.

(** X14: when the validation slice is the whole input nothing is left to
    train on, and with a maximum depth other than zero [build_tree] reads
    the empty vector of the root out of range. *)
Theorem main_nothing_to_train_on (input : list Flower) (depth : Z)
    (name : string) (rnd : nat → rng) :
  (- 2 ^ 31 ≤ depth < 2 ^ 31)%Z → depth ≠ 0%Z →
  (Z.of_nat (String.length name) < 2 ^ 31)%Z →
  main input 0 (size input) depth name rnd = Fault.
Proof.
  intros Hd Hnz Hlen. unfold main. rewrite decide_True by (unfold size; lia).
  replace (Z.to_nat (size input)) with (length input) by (unfold size; lia).
  rewrite drop_all. change (take (Z.to_nat 0) input ++ []) with (@nil Flower).
  destruct (build_tree_empty (length (@nil Flower))
              (set_max_depth depth (new_Node [] name)) rnd (new_Node [] name) 0)
    as [_ Hfault]; [done|].
  rewrite Hfault; [done|]. by rewrite set_max_depth_reached.
Qed.


(** X15: the tree built on a non-empty partition has no empty leaf, at
    most as many leaves as the partition has flowers, and one internal
    node less than it has leaves. *)
Theorem build_tree_size (fuel : nat) (max_depth : Z) (rnd : nat → rng)
    (n : Node) (k : nat) (t : Node) (k' : nat) :
  flowers_ n ≠ [] →
  build_tree fuel max_depth rnd n k = Ok (t, k') →
  (∀ lf, lf ∈ leaves t → flowers_ lf ≠ [])
  ∧ 1 ≤ length (leaves t) ≤ length (flowers_ n)
  ∧ length (subnodes t) + 1 = 2 * length (leaves t).
Proof.
  intros Hne [HB|(Hnil & _)]%build_tree_Ok_cases; [clear Hne|done].
  induction HB as [n k n' Hne Hlf Hp Hpos
                  |n k f n' g m l r tl k1 tr k2 Hnl Hlen Hfb Hp Hpos Hg Eg Hgpos
                   Hl Hr Hbl IHl Hbr IHr].
  - rewrite leaves_make_leaf.
    destruct (make_leaf_eq (rnd k) n') as (a & b & c & _ & ->). simpl.
    assert (length (flowers_ n') = length (flowers_ n)) as Hlen by by rewrite Hp.
    split_and!; [|lia|destruct (flowers_ n); [done|simpl; lia]|lia].
    intros lf ->%list_elem_of_singleton. simpl. intros Hnil.
    rewrite Hnil in Hlen. by destruct (flowers_ n).
  - destruct IHl as (Hlne & Hll & Hls). destruct IHr as (Hrne & Hrl & Hrs).
    rewrite leaves_children, subnodes_children, length_app. simpl.
    rewrite length_app.
    destruct (max_gain_spec f n') as (g' & idx & x & y & Hg' & Hidx & _).
    { unfold size. rewrite Hp. lia. }
    rewrite Hg in Hg'. injection Hg' as _ ->. simpl in Hl, Hr.
    injection Hl as <-. injection Hr as <-. simpl in Hll, Hrl.
    rewrite length_take in Hll. rewrite length_drop in Hrl.
    assert (length (std_sort f (flowers_ n')) = length (flowers_ n')) as Hss
      by by rewrite std_sort_perm.
    rewrite Hss in Hll, Hrl.
    assert (length (flowers_ n') = length (flowers_ n)) as Hlen' by by rewrite Hp.
    unfold size in Hidx.
    split_and!; [|lia..].
    intros lf [Hin|Hin]%elem_of_app; auto.
Qed.

End Tree.

(** * The model at work

    The theorems above hold for every [log2] and every sorting function
    that returns a sorted permutation.  Here they are applied to
    [insertion_sort] and the table [log2_tab]. *)

Lemma insert_by_perm (f : Feature) (x : Flower) (v : list Flower) :
  insert_by f x v ≡ₚ x :: v.
Proof.
  induction v as [|y v IH]; simpl; [done|].
  case_decide; [done|]. rewrite IH. apply Permutation_swap.
Qed.

Lemma insertion_sort_perm (f : Feature) (v : list Flower) :
  insertion_sort f v ≡ₚ v.
Proof.
  unfold insertion_sort. induction v as [|x v IH]; simpl; [done|].
  by rewrite insert_by_perm, IH.
Qed.

Lemma insert_by_sorted (f : Feature) (x : Flower) (v : list Flower) :
  sorted_by f v → sorted_by f (insert_by f x v).
Proof.
  unfold sorted_by. induction 1 as [|y v Hs IH Hhd]; simpl.
  { repeat constructor. }
  case_decide as Hlt.
  - constructor; [by constructor|]. constructor. by apply Qclt_le_weak.
  - constructor; [done|].
    apply Qcnot_lt_le in Hlt.
    destruct Hhd as [|z v' Hyz]; simpl; [by constructor|].
    case_decide; by constructor.
Qed.

Lemma insertion_sort_sorted (f : Feature) (v : list Flower) :
  sorted_by f (insertion_sort f v).
Proof.
  unfold insertion_sort. induction v as [|x v IH]; simpl.
  - constructor.
  - by apply insert_by_sorted.
Qed.

Lemma fair_ok (i : nat) : rng_ok (fair i).
Proof. unfold rng_ok, fair. simpl. lia. Qed.

Lemma max_gain_skips_candidate_witness :
  spec_candidates SL (insertion_sort SL skipped_example) = [1; 2]%Z
  ∧ ∃ g g' m,
      max_gain log2_tab insertion_sort SL (new_Node skipped_example "") = Ok (g, m)
      ∧ flowers_ <$> left_ m = Some [flower 1 0 0 0 0]
      ∧ spec_max_gain log2_tab insertion_sort SL (new_Node skipped_example "") = Ok g'
      ∧ gain_at log2_tab (insertion_sort SL skipped_example) 2 = Ok g'
      ∧ (g < g')%Qc.
Proof.
  apply (max_gain_skips_candidate log2_tab insertion_sort
           insertion_sort_perm insertion_sort_sorted).
  - vm_compute. reflexivity.
  - vm_compute. reflexivity.
  - vm_compute. reflexivity.
Defined.

Lemma find_best_policy_witness :
  valid_class (find_best 5 5 1 (mkRng 2 1))
  ∧ ∃ t0 t1, top_classes 5 5 1 = [t0; t1] ∧ t0 ≠ t1
      ∧ find_best 5 5 1 (mkRng 2 1) = t1.
Proof.
  destruct (find_best_policy 5 5 1 (mkRng 2 1)) as (Hv & _ & Htwo & _).
  { unfold rng_ok. simpl. lia. }
  split; [exact Hv|].
  destruct Htwo as (t0 & t1 & Htop & Hne & Hr).
  { left. lia. }
  exists t0, t1. split; [exact Htop|]. split; [exact Hne|exact Hr].
Defined.








Lemma main_reports_accuracy_witness :
  main log2_tab insertion_sort (flower 2 0 0 0 0 :: skipped_example)
    0 1 2 "" fair = Ok (3, 3, 1, 1)%Z
  ∧ ∃ ttree,
      (3 = size (filter (classified_right ttree)
                   (take (Z.to_nat 0) (flower 2 0 0 0 0 :: skipped_example)
                    ++ drop (Z.to_nat 1) (flower 2 0 0 0 0 :: skipped_example))))%Z
      ∧ (1 = size (filter (classified_right ttree)
                     (take (Z.to_nat (1 - 0))
                        (drop (Z.to_nat 0) (flower 2 0 0 0 0 :: skipped_example)))))%Z.
Proof.
  assert (main log2_tab insertion_sort (flower 2 0 0 0 0 :: skipped_example)
            0 1 2 "" fair = Ok (3, 3, 1, 1)%Z) as Hmain.
  { vm_compute. reflexivity. }
  split; [exact Hmain|].
  destruct (main_reports_accuracy log2_tab insertion_sort
              insertion_sort_perm insertion_sort_sorted
              (flower 2 0 0 0 0 :: skipped_example) 0 1 2 "" fair 3 3 1 1
              fair_ok Hmain)
    as (t & k & _ & _ & Ht & _ & Hv & _).
  exists t. split; [exact Ht|exact Hv].
Defined.

Lemma build_tree_in_bounds_witness :
  build_tree log2_tab insertion_sort 3 2 fair (new_Node skipped_example "") 0
    ≠ Fault
  ∧ (∀ n0, flowers_ n0 = [] → ¬ depth_reached 2 n0 →
       build_tree log2_tab insertion_sort 4 2 fair n0 0 = Fault).
Proof.
  destruct (build_tree_in_bounds log2_tab insertion_sort
              insertion_sort_perm insertion_sort_sorted
              3 2 fair (new_Node skipped_example "") 0)
    as (Hnf & _ & _ & _ & _ & Hempty & _).
  { simpl. discriminate. }
  split; [exact Hnf|exact Hempty].
Defined.

Lemma count_class_sum_witness :
  (2 + 1 + 0 = size (flowers_ (new_Node skipped_example "")))%Z.
Proof.
  destruct (count_class_sum (new_Node skipped_example "") 2 1 0)
    as (_ & Hall & _).
  { vm_compute. reflexivity. }
  apply Hall. unfold skipped_example. simpl.
  repeat (constructor; [unfold valid_class; simpl; auto|]). constructor.
Defined.


Lemma split_node_counts_witness :
  ∃ m l r,
    split_node 1 (new_Node skipped_example "") = Ok m
    ∧ left_ m = Some l ∧ right_ m = Some r
    ∧ count_class l = (1, 0, 0)%Z ∧ count_class r = (1, 1, 0)%Z
    ∧ (2 = 1 + 1 ∧ 1 = 0 + 1 ∧ 0 = 0 + 0
       ∧ 2 + 1 + 0 = 1 + 0 + 0 + (1 + 1 + 0)
       ∧ 0 ≤ 1 ∧ 0 ≤ 0 ∧ 0 ≤ 0 ∧ 0 ≤ 1 ∧ 0 ≤ 1 ∧ 0 ≤ 0)%Z.
Proof.
  eexists _, _, _.
  split; [vm_compute; reflexivity|].
  split; [vm_compute; reflexivity|].
  split; [vm_compute; reflexivity|].
  split; [vm_compute; reflexivity|].
  split; [vm_compute; reflexivity|].
  eapply (split_node_counts 1 (new_Node skipped_example "")).
  - vm_compute. reflexivity.
  - vm_compute. reflexivity.
  - vm_compute. reflexivity.
  - vm_compute. reflexivity.
  - vm_compute. reflexivity.
  - vm_compute. reflexivity.
Defined.

Lemma max_gain_order_independent_witness :
  ∃ g1 g2 m1 m2,
    max_gain log2_tab insertion_sort SL (new_Node skipped_example "") = Ok (g1, m1)
    ∧ max_gain log2_tab insertion_sort SL (new_Node (reverse skipped_example) "")
      = Ok (g2, m2)
    ∧ (g1 = g2
       ∧ threshold_ m1 = threshold_ m2
       ∧ feature_ m1 = feature_ m2
       ∧ ∃ l1 l2, left_ m1 = Some l1 ∧ left_ m2 = Some l2
           ∧ length (flowers_ l1) = length (flowers_ l2)).
Proof.
  eexists _, _, _, _.
  split; [vm_compute; reflexivity|].
  split; [vm_compute; reflexivity|].
  eapply (max_gain_order_independent log2_tab insertion_sort
            insertion_sort_perm insertion_sort_sorted SL
            (new_Node skipped_example "")
            (new_Node (reverse skipped_example) "")).
  - simpl. symmetry. apply reverse_Permutation.
  - vm_compute. reflexivity.
  - vm_compute. reflexivity.
Defined.



Lemma make_leaf_majority_witness :
  is_leaf (make_leaf (mkRng 0 0) (new_Node skipped_example ""))
  ∧ ∃ r,
      feature_ (make_leaf (mkRng 0 0) (new_Node skipped_example "")) = to_string r
      ∧ valid_class r
      ∧ class_count 2 1 0 r = ((2 `max` 1) `max` 0)%Z.
Proof.
  destruct (make_leaf_majority (mkRng 0 0) (new_Node skipped_example "") 2 1 0)
    as (Hleaf & _ & _ & _ & _ & Hlabel).
  { unfold rng_ok. simpl. lia. }
  { vm_compute. reflexivity. }
  split; [exact Hleaf|exact Hlabel].
Defined.

Lemma build_tree_at_max_depth_witness :
  build_tree log2_tab insertion_sort 1 0 fair (new_Node skipped_example "") 0
  = Ok (make_leaf (fair 0) (new_Node skipped_example ""), 1).
Proof.
  apply (build_tree_at_max_depth log2_tab insertion_sort 0 0 fair
           (new_Node skipped_example "") 0).
  reflexivity.
Defined.

Lemma build_tree_pure_node_witness :
  build_tree log2_tab insertion_sort 1 5 fair
    (new_Node [flower 1 0 0 0 1; flower 2 0 0 0 1] "") 0
  = Ok (make_leaf (fair 0) (new_Node [flower 1 0 0 0 1; flower 2 0 0 0 1] ""), 1)
  ∧ feature_ (make_leaf (fair 0) (new_Node [flower 1 0 0 0 1; flower 2 0 0 0 1] ""))
    = to_string 1.
Proof.
  apply (build_tree_pure_node log2_tab insertion_sort 0 5 fair
           (new_Node [flower 1 0 0 0 1; flower 2 0 0 0 1] "") 0 1).
  - simpl. discriminate.
  - right. left. reflexivity.
  - apply Forall_forall. repeat constructor.
Defined.

Lemma build_tree_generators_witness :
  ∃ t k',
    build_tree log2_tab insertion_sort 3 2 fair (new_Node skipped_example "") 0
      = Ok (t, k')
    ∧ (k' = 0 + length (leaves t)
       ∧ ∀ i lf, leaves t !! i = Some lf →
           is_leaf lf
           ∧ ∃ a b c, count_class lf = (a, b, c)
               ∧ feature_ lf = to_string (find_best a b c (fair (0 + i)))).
Proof.
  eexists _, _. split; [vm_compute; reflexivity|].
  eapply (build_tree_generators log2_tab insertion_sort
            insertion_sort_perm insertion_sort_sorted
            3 2 fair (new_Node skipped_example "") 0).
  vm_compute. reflexivity.
Defined.

Lemma build_tree_leaves_partition_witness :
  ∃ t k',
    build_tree log2_tab insertion_sort 3 2 fair (new_Node skipped_example "") 0
      = Ok (t, k')
    ∧ concat (flowers_ <$> leaves t) ≡ₚ flowers_ (new_Node skipped_example "").
Proof.
  eexists _, _. split; [vm_compute; reflexivity|].
  eapply (build_tree_leaves_partition log2_tab insertion_sort
            insertion_sort_perm insertion_sort_sorted
            3 2 fair (new_Node skipped_example "") 0).
  vm_compute. reflexivity.
Defined.



Lemma main_returns_witness :
  ∃ correctt correctv,
    main log2_tab insertion_sort (flower 2 0 0 0 0 :: skipped_example)
      0 1 2 "" fair
    = Ok (correctt, size (flower 2 0 0 0 0 :: skipped_example) - (1 - 0),
          correctv, 1 - 0)%Z
    ∧ (0 ≤ correctt ≤ size (flower 2 0 0 0 0 :: skipped_example) - (1 - 0))%Z
    ∧ (0 ≤ correctv ≤ 1 - 0)%Z.
Proof.
  apply (main_returns log2_tab insertion_sort
           insertion_sort_perm insertion_sort_sorted
           (flower 2 0 0 0 0 :: skipped_example) 0 1 2 "" fair fair_ok).
  - unfold size. simpl. lia.
  - unfold size. simpl. lia.
Defined.

Lemma main_nothing_to_train_on_witness :
  main log2_tab insertion_sort skipped_example 0 (size skipped_example) 2 "" fair
  = Fault.
Proof.
  apply (main_nothing_to_train_on log2_tab insertion_sort skipped_example 2 "" fair).
  - lia.
  - lia.
  - simpl. lia.
Defined.

Lemma build_tree_size_witness :
  ∃ t k',
    build_tree log2_tab insertion_sort 3 2 fair (new_Node skipped_example "") 0
      = Ok (t, k')
    ∧ ((∀ lf, lf ∈ leaves t → flowers_ lf ≠ [])
       ∧ 1 ≤ length (leaves t) ≤ length (flowers_ (new_Node skipped_example ""))
       ∧ length (subnodes t) + 1 = 2 * length (leaves t)).
Proof.
  eexists _, _. split; [vm_compute; reflexivity|].
  eapply (build_tree_size log2_tab insertion_sort
            insertion_sort_perm insertion_sort_sorted
            3 2 fair (new_Node skipped_example "") 0).
  - simpl. discriminate.
  - vm_compute. reflexivity.
Defined.
